(** * Undoable file mutations and the two-phase generation planner

    A shallow embedding of [historyManager.ts], [fileSystemService.ts] and
    the planning part of [aiCodeGenerator.ts].

    - JavaScript strings are Rocq [string]s, one [ascii] per code unit (the
      model covers strings whose code units are below 256); [Uint8Array]s are
      lists of bytes.
    - [async] functions are computations in a state-and-exception monad [M]
      over a [World] that holds the storage behind [vscode.workspace.fs], the
      [HistoryManager], the completion service and the messages shown in the
      window. [await] is the monad's bind, [try]/[catch] is [try_catch].
    - The editor's file system, the completion client, Node's [path] module,
      [Buffer.from] and [JSON.parse] are collaborators of the program; they
      are interfaces (type classes) here, with an in-memory instance of each
      to run the code on concrete inputs. *)

From Stdlib Require Import QArith Ascii String.
From stdpp Require Import base list gmap strings pretty.
Set Warnings "-register-all".

(** ** JavaScript values used by the services *)

Definition bytes := list Byte.byte.

(** What a [throw] carries: an [Error] object (with its [name] and
    [message]) or any other value, kept as its string conversion. *)
Inductive thrown :=
  | ErrorObject (name message : string)
  | NonError (repr : string).

(** [new Error(message)] *)
Definition new_Error (message : string) : thrown := ErrorObject "Error" message.

(** [error instanceof Error ? error.message : String(error)] *)
Definition errorMessage (error : thrown) : string :=
  match error with
  | ErrorObject _ message => message
  | NonError repr => repr
  end.

(** [String(error)], as the template literal [`${error}`] computes it
    ([Error.prototype.toString] for an [Error] object). *)
Definition String_of (error : thrown) : string :=
  match error with
  | ErrorObject name message =>
      if decide (name = EmptyString) then message
      else if decide (message = EmptyString) then name
      else name +:+ ": " +:+ message
  | NonError repr => repr
  end.

Inductive outcome (A : Type) :=
  | Ok (a : A)
  | Throw (e : thrown).
Arguments Ok {A} a.
Arguments Throw {A} e.

(** A string is truthy when it is not empty. *)
Definition truthy (s : string) : bool :=
  match s with EmptyString => false | String _ _ => true end.

(** [value || fallback] for an optional string. *)
Definition or_string (value : option string) (fallback : string) : string :=
  match value with
  | Some s => if truthy s then s else fallback
  | None => fallback
  end.

(** ** The regular expressions of the planner *)

Definition LF : string := String "010" EmptyString.
Definition FENCE : string := "```".

(** [s] without its leading [p], when [s] starts with [p]. *)
Fixpoint strip_prefix (p s : string) : option string :=
  match p with
  | EmptyString => Some s
  | String a p' =>
      match s with
      | String b s' => if Ascii.eqb a b then strip_prefix p' s' else None
      | EmptyString => None
      end
  end.

(** The lazy group [([\s\S]*?)] followed by the literal [close]: the
    shortest prefix of [s] after which [close] stands. *)
Fixpoint lazy_until (close s : string) : option string :=
  match strip_prefix close s with
  | Some _ => Some EmptyString
  | None =>
      match s with
      | EmptyString => None
      | String c s' => String c <$> lazy_until close s'
      end
  end.

(** [String.prototype.match] without the [g] flag tries the start positions
    from left to right and keeps the first at which the pattern matches. *)
Fixpoint search {A : Type} (at_head : string → option A) (s : string) : option A :=
  match at_head s with
  | Some r => Some r
  | None =>
      match s with
      | EmptyString => None
      | String _ s' => search at_head s'
      end
  end.

(** [\w] *)
Definition is_word (c : ascii) : bool :=
  let n := nat_of_ascii c in
  ((48 <=? n) && (n <=? 57)) || ((65 <=? n) && (n <=? 90))
  || ((97 <=? n) && (n <=? 122)) || (n =? 95).

(** [(?:\w+)?] is greedy and [\w] never matches the line feed that has to
    follow, so the group takes the whole run of word characters. *)
Fixpoint skip_word (s : string) : string :=
  match s with
  | String c s' => if is_word c then skip_word s' else s
  | EmptyString => EmptyString
  end.

(** Group 1 of [/\[([\s\S]*?)\]/] *)
Definition match_array (s : string) : option string :=
  search (λ t, strip_prefix "[" t ≫= lazy_until "]") s.

(** Group 1 of [/```json\n([\s\S]*?)\n```/] *)
Definition match_json_fence (s : string) : option string :=
  search (λ t, strip_prefix (FENCE +:+ "json" +:+ LF) t ≫= lazy_until (LF +:+ FENCE)) s.

(** Group 1 of [/```\n([\s\S]*?)\n```/] *)
Definition match_plain_fence (s : string) : option string :=
  search (λ t, strip_prefix (FENCE +:+ LF) t ≫= lazy_until (LF +:+ FENCE)) s.

(** Group 1 of [/```(?:\w+)?\n([\s\S]*?)\n```/] *)
Definition match_code_fence (s : string) : option string :=
  search (λ t, strip_prefix FENCE t ≫= λ u,
               strip_prefix LF (skip_word u) ≫= lazy_until (LF +:+ FENCE)) s.

(** White space of [String.prototype.trim] among the code units below 256. *)
Definition is_space (c : ascii) : bool :=
  let n := nat_of_ascii c in
  ((9 <=? n) && (n <=? 13)) || (n =? 32) || (n =? 160).

Fixpoint trimStart (s : string) : string :=
  match s with
  | String c s' => if is_space c then trimStart s' else s
  | EmptyString => EmptyString
  end.

Fixpoint trimEnd (s : string) : string :=
  match s with
  | EmptyString => EmptyString
  | String c s' =>
      match trimEnd s' with
      | EmptyString => if is_space c then EmptyString else String c EmptyString
      | t => String c t
      end
  end.

Definition trim (s : string) : string := trimEnd (trimStart s).

(** [const m = text.match(re) || [null, text]; m[1] ? m[1].trim() : text.trim()] *)
Definition unwrap_match (group1 : option string) (text : string) : string :=
  let m1 := match group1 with Some g => g | None => text end in
  if truthy m1 then trim m1 else trim text.

(** The clean-up of a generated file: the content of the first fenced
    block, else the whole response, trimmed. *)
Definition extract_code (fileContent : string) : string :=
  unwrap_match (match_code_fence fileContent) fileContent.

(** The JSON text of a response: a fence tagged [json], else a plain fence,
    else the whole response, trimmed. *)
Definition extract_json (responseContent : string) : string :=
  unwrap_match
    (match match_json_fence responseContent with
     | Some g => Some g
     | None => match_plain_fence responseContent
     end)
    responseContent.

(** ** historyManager.ts: the operation log *)

Inductive FileOperation :=
  | FileCreateOperation (_filePath : string)
  | FileUpdateOperation (_filePath : string) (_previousContent : bytes)
  | FileDeleteOperation (_filePath : string) (_previousContent : bytes).

Record HistoryManager := {
  _operations : list FileOperation;
  _maxHistorySize : nat
}.

(** [new HistoryManager()] *)
Definition new_HistoryManager : HistoryManager :=
  {| _operations := []; _maxHistorySize := 100 |}.

(** [Array.prototype.shift] drops the first element. *)
Definition shift {A : Type} (l : list A) : list A := tail l.

(** [Array.prototype.pop]: the last element, if any, and the rest. *)
Definition pop {A : Type} (l : list A) : option A * list A :=
  (last l, removelast l).

Definition recordOperation (operation : FileOperation) (this : HistoryManager)
  : HistoryManager :=
  let pushed := _operations this ++ [operation] in
  if decide (_maxHistorySize this < length pushed)
  then {| _operations := shift pushed; _maxHistorySize := _maxHistorySize this |}
  else {| _operations := pushed; _maxHistorySize := _maxHistorySize this |}.

(** ** aiCodeGenerator.ts: the size estimate and the choice of strategy *)

(** [description.length / 4 + 1000]. A length is an integer below 2^53, so
    the division by four and the sum are exact on doubles: the estimate is
    this rational. *)
Definition estimatedTokens (description : string) : Q :=
  (Z.of_nat (String.length description) # 4) + 1000.

Inductive Strategy := Flat | Chunked.

(** [if (estimatedTokens > 2000) { chunked } else { single request }] *)
Definition chooseStrategy (description : string) : Strategy :=
  if Qle_bool (estimatedTokens description) 2000 then Flat else Chunked.

(** ** Collaborators of the services *)

(** [vscode.workspace.fs] at [vscode.Uri.file(path)], over a storage state
    [FS]. [stat] and [readFile] only observe the storage; the three others
    return the storage they leave behind, whether they throw or not. The
    [FileStat] that [stat] resolves to is never looked at by the services. *)
Class FileSystem (FS : Type) := {
  fs_stat : FS → string → outcome unit;
  fs_readFile : FS → string → outcome bytes;
  fs_writeFile : FS → string → bytes → outcome unit * FS;
  fs_delete : FS → string → bool → outcome unit * FS;
  fs_createDirectory : FS → string → outcome unit * FS
}.

(** [path.dirname] and [path.join] of Node. *)
Class NodePath := {
  path_dirname : string → string;
  path_join : string → string → string
}.

(** What a storage does when nothing goes wrong underneath: a path that
    exists lies in a directory that exists, a file reads back as written,
    and a deleted path is gone. *)
Class FileSystemLaws (FS : Type) `{FileSystem FS} `{NodePath} : Prop := {
  stat_dirname : ∀ fs p,
    fs_stat fs p = Ok tt → fs_stat fs (path_dirname p) = Ok tt;
  read_after_write : ∀ fs p b fs',
    fs_writeFile fs p b = (Ok tt, fs') → fs_readFile fs' p = Ok b;
  stat_after_delete : ∀ fs p recursive fs',
    fs_delete fs p recursive = (Ok tt, fs') → ∃ e, fs_stat fs' p = Throw e
}.

(** [openai.chat.completions.create({ model, messages: [{ role: 'user',
    content: prompt }], temperature: 0.7, max_tokens })] followed by
    [.choices[0].message.content], which is a string or [null]. The service
    answers as it pleases, so it has a state [AI] of its own. *)
Class Completions (AI : Type) := {
  chat_completions_create :
    AI → string → string → N → outcome (option string) * AI
}.

Record GeneratedFile := { path : string; content : string }.

(** [interface ProjectStructure] *)
Record ProjectStructure := { files : list GeneratedFile }.

Inductive Action := ActionCreate | ActionUpdate | ActionDelete.

(** An entry of [interface UpdatePlan]; [content?: string] may be absent. *)
Record UpdateEntry := {
  entry_path : string;
  entry_action : Action;
  entry_content : option string
}.

Record UpdatePlan := { plan_files : list UpdateEntry }.

(** [interface GenerationResult] *)
Record GenerationResult := { message : string; result_files : list string }.

(** [Buffer.from(content, 'utf8')], and [JSON.parse] at the type the source
    gives its result in [_generateLargerProject] ([string[]]); [None] stands
    for the [SyntaxError] it throws. *)
Class Builtins := {
  Buffer_from : string → bytes;
  JSON_parse_paths : string → option (list string)
}.

(** [JSON.parse] at the types of the two single-request plans. *)
Class PlanParsers := {
  JSON_parse_ProjectStructure : string → option ProjectStructure;
  JSON_parse_UpdatePlan : string → option UpdatePlan
}.

(** The text of the prompts. Nothing below depends on it. *)
Class Prompts (ProjectAnalysis : Type) := {
  structurePrompt : string → string → string;
  filePrompt : string → string → string → string;
  projectPrompt : string → string → string;
  updatePrompt : ProjectAnalysis → string → string
}.

(** [_analyzeExistingProject]: it reads the project through [stat],
    [readFile] and [readDirectory] and changes nothing; its summary goes
    into the prompt as it is. *)
Class ProjectAnalyzer (FS ProjectAnalysis : Type) := {
  analyzeExistingProject : FS → string → outcome ProjectAnalysis
}.

(** [vscode.workspace.getConfiguration('fintonlabs')] *)
Record Config := { cfg_model : option string; cfg_maxTokens : option N }.

(** [vscode.window.showInformationMessage] and [showErrorMessage] *)
Inductive Notice :=
  | Information (text : string)
  | ErrorMessage (text : string).

(** ** The world of the extension and its monad *)

Section Services.
Context {FS AI ProjectAnalysis : Type}.
Context `{FileSystem FS} `{NodePath} `{Completions AI} `{Builtins}.
Context `{PlanParsers}.
Context `{Prompts ProjectAnalysis} `{ProjectAnalyzer FS ProjectAnalysis}.

(** [w_openai] tells whether [this._openai] holds a client ([true]) or
    [null]. *)
Record World := {
  w_fs : FS;
  w_history : HistoryManager;
  w_ai : AI;
  w_openai : bool;
  w_config : Config;
  w_window : list Notice
}.

Definition set_fs (fs : FS) (w : World) : World :=
  {| w_fs := fs; w_history := w_history w; w_ai := w_ai w;
     w_openai := w_openai w; w_config := w_config w; w_window := w_window w |}.

Definition set_history (h : HistoryManager) (w : World) : World :=
  {| w_fs := w_fs w; w_history := h; w_ai := w_ai w;
     w_openai := w_openai w; w_config := w_config w; w_window := w_window w |}.

Definition set_ai (ai : AI) (w : World) : World :=
  {| w_fs := w_fs w; w_history := w_history w; w_ai := ai;
     w_openai := w_openai w; w_config := w_config w; w_window := w_window w |}.

Definition show (n : Notice) (w : World) : World :=
  {| w_fs := w_fs w; w_history := w_history w; w_ai := w_ai w;
     w_openai := w_openai w; w_config := w_config w;
     w_window := w_window w ++ [n] |}.

Definition M (A : Type) : Type := World → outcome A * World.

Definition ret {A : Type} (a : A) : M A := λ w, (Ok a, w).

Definition throw {A : Type} (e : thrown) : M A := λ w, (Throw e, w).

Definition bind {A B : Type} (m : M A) (k : A → M B) : M B :=
  λ w, match m w with
       | (Ok a, w') => k a w'
       | (Throw e, w') => (Throw e, w')
       end.

Definition try_catch {A : Type} (m : M A) (handler : thrown → M A) : M A :=
  λ w, match m w with
       | (Ok a, w') => (Ok a, w')
       | (Throw e, w') => handler e w'
       end.

Notation "'let!' x ':=' m 'in' k" := (bind m (λ x, k))
  (at level 10, x name, m at level 100, k at level 200, only parsing).
Notation "'run!' m 'in' k" := (bind m (λ _, k))
  (at level 10, m at level 100, k at level 200, only parsing).

(** [for (const x of items) { body }], the body acting on the local
    variables [s] of the enclosing function. *)
Fixpoint for_of {A S : Type} (items : list A) (body : A → S → M S) (s : S)
  : M S :=
  match items with
  | [] => ret s
  | x :: rest => let! s' := body x s in for_of rest body s'
  end.

(** *** The host API *)

Definition workspace_fs_stat (p : string) : M unit :=
  λ w, (fs_stat (w_fs w) p, w).

Definition workspace_fs_readFile (p : string) : M bytes :=
  λ w, (fs_readFile (w_fs w) p, w).

Definition workspace_fs_writeFile (p : string) (b : bytes) : M unit :=
  λ w, let (r, fs') := fs_writeFile (w_fs w) p b in (r, set_fs fs' w).

Definition workspace_fs_delete (p : string) (recursive : bool) : M unit :=
  λ w, let (r, fs') := fs_delete (w_fs w) p recursive in (r, set_fs fs' w).

Definition workspace_fs_createDirectory (p : string) : M unit :=
  λ w, let (r, fs') := fs_createDirectory (w_fs w) p in (r, set_fs fs' w).

Definition showInformationMessage (text : string) : M unit :=
  λ w, (Ok tt, show (Information text) w).

Definition showErrorMessage (text : string) : M unit :=
  λ w, (Ok tt, show (ErrorMessage text) w).

(** *** historyManager.ts *)

Definition FileCreateOperation_undo (_filePath : string) : M unit :=
  try_catch (workspace_fs_delete _filePath true)
    (λ error, throw (new_Error
       ("Failed to undo file creation: " +:+ errorMessage error))).

Definition FileUpdateOperation_undo (_filePath : string)
    (_previousContent : bytes) : M unit :=
  try_catch (workspace_fs_writeFile _filePath _previousContent)
    (λ error, throw (new_Error
       ("Failed to undo file update: " +:+ errorMessage error))).

Definition FileDeleteOperation_undo (_filePath : string)
    (_previousContent : bytes) : M unit :=
  try_catch (workspace_fs_writeFile _filePath _previousContent)
    (λ error, throw (new_Error
       ("Failed to undo file deletion: " +:+ errorMessage error))).

(** [operation.undo()] through the [FileOperation] interface. *)
Definition FileOperation_undo (operation : FileOperation) : M unit :=
  match operation with
  | FileCreateOperation p => FileCreateOperation_undo p
  | FileUpdateOperation p b => FileUpdateOperation_undo p b
  | FileDeleteOperation p b => FileDeleteOperation_undo p b
  end.

(** [this._historyManager.recordOperation(operation)] *)
Definition historyManager_recordOperation (operation : FileOperation) : M unit :=
  λ w, (Ok tt, set_history (recordOperation operation (w_history w)) w).

(** [HistoryManager.undo] *)
Definition undo : M unit :=
  λ w,
    let this := w_history w in
    if decide (length (_operations this) = 0)
    then showInformationMessage "Nothing to undo" w
    else
      let (lastOperation, rest) := pop (_operations this) in
      let w' := set_history {| _operations := rest;
                               _maxHistorySize := _maxHistorySize this |} w in
      match lastOperation with
      | Some lastOperation =>
          try_catch
            (run! FileOperation_undo lastOperation in
             showInformationMessage "Operation undone successfully")
            (λ error, showErrorMessage
               ("Failed to undo operation: " +:+ errorMessage error))
            w'
      | None => (Ok tt, w')
      end.

(** *** fileSystemService.ts *)

Definition fileExists (filePath : string) : M bool :=
  try_catch (run! workspace_fs_stat filePath in ret true)
    (λ _, ret false).

Definition ensureDirectory (dirPath : string) : M unit :=
  try_catch (workspace_fs_stat dirPath)
    (λ _, try_catch (workspace_fs_createDirectory dirPath)
            (λ error, throw (new_Error
               ("Failed to create directory: " +:+ errorMessage error)))).

Definition createFile (filePath content : string) : M unit :=
  try_catch
    (run! ensureDirectory (path_dirname filePath) in
     let! exists_ := fileExists filePath in
     if exists_ : bool
     then throw (new_Error ("File already exists: " +:+ filePath))
     else
       let contentBuffer := Buffer_from content in
       run! workspace_fs_writeFile filePath contentBuffer in
       historyManager_recordOperation (FileCreateOperation filePath))
    (λ error, throw (new_Error
       ("Failed to create file: " +:+ errorMessage error))).

Definition updateFile (filePath content : string) : M unit :=
  try_catch
    (let! exists_ := fileExists filePath in
     if negb exists_
     then throw (new_Error ("File does not exist: " +:+ filePath))
     else
       let! existingContent := workspace_fs_readFile filePath in
       let contentBuffer := Buffer_from content in
       run! workspace_fs_writeFile filePath contentBuffer in
       historyManager_recordOperation
         (FileUpdateOperation filePath existingContent))
    (λ error, throw (new_Error
       ("Failed to update file: " +:+ errorMessage error))).

Definition deleteFile (filePath : string) : M unit :=
  try_catch
    (let! exists_ := fileExists filePath in
     if negb exists_
     then throw (new_Error ("File does not exist: " +:+ filePath))
     else
       let! existingContent := workspace_fs_readFile filePath in
       run! workspace_fs_delete filePath false in
       historyManager_recordOperation
         (FileDeleteOperation filePath existingContent))
    (λ error, throw (new_Error
       ("Failed to delete file: " +:+ errorMessage error))).

(** *** aiCodeGenerator.ts *)

Definition getConfiguration : M Config := λ w, (Ok (w_config w), w).

Definition this_openai : M bool := λ w, (Ok (w_openai w), w).

(** [model === 'gpt-4' ? 'gpt-4' : 'gpt-3.5-turbo'], where [model] is
    [config.get<string>('model') || 'gpt-4'] *)
Definition request_model (config : Config) : string :=
  let model := or_string (cfg_model config) "gpt-4" in
  if decide (model = "gpt-4") then "gpt-4" else "gpt-3.5-turbo".

(** [config.get<number>('maxTokens') || 4096] *)
Definition request_maxTokens (config : Config) : N :=
  match cfg_maxTokens config with
  | Some n => if decide (n = 0%N) then 4096%N else n
  | None => 4096%N
  end.

Definition completions_create (model prompt : string) (max_tokens : N)
  : M (option string) :=
  λ w, let (r, ai') := chat_completions_create (w_ai w) model prompt max_tokens
       in (r, set_ai ai' w).

(** [JSON.parse(text)], which throws a [SyntaxError] on a text that is not
    JSON. Every caller catches it and drops its message. *)
Definition JSON_parse {A : Type} (parse : string → option A) (text : string)
  : M A :=
  match parse text with
  | Some v => ret v
  | None => throw (ErrorObject "SyntaxError" text)
  end.

Definition _checkApiKey : M bool :=
  let! openai := this_openai in
  if openai : bool then ret true
  else
    run! showErrorMessage
      "API key not configured. Please set your API key in the extension settings."
    in ret false.

Definition _callAI (prompt : string) (maxTokens : N) : M string :=
  let! config := getConfiguration in
  try_catch
    (let! openai := this_openai in
     if openai : bool then
       let! content :=
         completions_create (request_model config) prompt maxTokens in
       ret (or_string content EmptyString)
     else throw (new_Error "OpenAI client not initialized"))
    (λ error, throw (new_Error
       ("Error calling AI API: " +:+ errorMessage error))).

(** The single request that [_generateProjectStructure] (small projects)
    and [_generateUpdatePlan] both make: the two bodies differ by the
    prompt, by the type [JSON.parse] is used at and by the message of
    their last [throw]. *)
Definition request_json {A : Type} (parse : string → option A)
    (prompt notInitialized : string) : M A :=
  let! config := getConfiguration in
  try_catch
    (let! openai := this_openai in
     let otherwise : M A := throw (new_Error notInitialized) in
     if openai : bool then
       let! responseContent :=
         completions_create (request_model config) prompt
           (request_maxTokens config) in
       match responseContent with
       | Some responseContent =>
           if truthy responseContent then
             try_catch
               (JSON_parse parse (extract_json responseContent))
               (λ parseError, throw (new_Error
                  "Failed to parse AI response. The response was not valid JSON."))
           else otherwise
       | None => otherwise
       end
     else otherwise)
    (λ error, throw (new_Error
       ("Error calling AI API: " +:+ errorMessage error))).

(** The content that stands for a file whose generation threw. *)
Definition failed_content (error : thrown) : string :=
  "// Failed to generate content for this file: " +:+ String_of error.

(** The body of the loop of [_generateLargerProject]; [generated] is its
    local array [files]. *)
Definition generate_one (description framework filePath : string)
    (generated : list GeneratedFile) : M (list GeneratedFile) :=
  try_catch
    (let! fileContent :=
       _callAI (filePrompt filePath description framework) 2048 in
     let cleanedContent := extract_code fileContent in
     ret (generated ++ [{| path := filePath; content := cleanedContent |}]))
    (λ error,
     ret (generated ++ [{| path := filePath; content := failed_content error |}])).

Definition _generateLargerProject (description framework : string)
  : M ProjectStructure :=
  let! structureResponse :=
    _callAI (structurePrompt description framework) 2048 in
  let! filePaths :=
    try_catch
      (match match_array structureResponse with
       | Some group1 => JSON_parse JSON_parse_paths ("[" +:+ group1 +:+ "]")
       | None => ret []
       end)
      (λ error, throw (new_Error "Failed to generate project structure")) in
  let! generated :=
    for_of filePaths (generate_one description framework) [] in
  ret {| files := generated |}.

Definition _generateProjectStructure (description framework : string)
  : M ProjectStructure :=
  match chooseStrategy description with
  | Chunked => _generateLargerProject description framework
  | Flat =>
      request_json JSON_parse_ProjectStructure
        (projectPrompt description framework)
        "Failed to generate project structure. API not initialized."
  end.

Definition _analyzeExistingProject (projectPath : string) : M ProjectAnalysis :=
  λ w, (analyzeExistingProject (w_fs w) projectPath, w).

Definition _generateUpdatePlan (projectAnalysis : ProjectAnalysis)
    (newRequirements : string) : M UpdatePlan :=
  request_json JSON_parse_UpdatePlan
    (updatePrompt projectAnalysis newRequirements)
    "Failed to generate update plan. API not initialized.".

(** The body of the loop of [generateApplication]. *)
Definition create_one (projectPath : string) (file : GeneratedFile)
    (createdFiles : list string) : M (list string) :=
  let filePath := path_join projectPath (path file) in
  run! createFile filePath (content file) in
  ret (createdFiles ++ [filePath]).

Definition generateApplication (description projectPath framework : string)
  : M GenerationResult :=
  let! configured := _checkApiKey in
  if negb configured then throw (new_Error "API key not configured")
  else
    try_catch
      (let! projectStructure := _generateProjectStructure description framework in
       run! ensureDirectory projectPath in
       let! createdFiles :=
         for_of (files projectStructure) (create_one projectPath) [] in
       ret {| message := "Application generated successfully with "
                         +:+ pretty (length createdFiles) +:+ " files";
              result_files := createdFiles |})
      (λ error, throw (new_Error
         ("Failed to generate application: " +:+ errorMessage error))).

(** The body of the loop of [updateApplication]: the entry goes to
    [createFile], [updateFile] or [deleteFile] by its [action], with
    [file.content || ''] as the content. *)
Definition apply_one (projectPath : string) (file : UpdateEntry)
    (updatedFiles : list string) : M (list string) :=
  let filePath := path_join projectPath (entry_path file) in
  run! match entry_action file with
       | ActionCreate =>
           createFile filePath (or_string (entry_content file) EmptyString)
       | ActionUpdate =>
           updateFile filePath (or_string (entry_content file) EmptyString)
       | ActionDelete => deleteFile filePath
       end in
  ret (updatedFiles ++ [filePath]).

Definition updateApplication (projectPath newRequirements : string)
  : M GenerationResult :=
  let! configured := _checkApiKey in
  if negb configured then throw (new_Error "API key not configured")
  else
    try_catch
      (let! projectAnalysis := _analyzeExistingProject projectPath in
       let! updatePlan := _generateUpdatePlan projectAnalysis newRequirements in
       let! updatedFiles :=
         for_of (plan_files updatePlan) (apply_one projectPath) [] in
       ret {| message := "Application updated successfully with "
                         +:+ pretty (length updatedFiles) +:+ " files modified";
              result_files := updatedFiles |})
      (λ error, throw (new_Error
         ("Failed to update application: " +:+ errorMessage error))).

End Services.

Arguments World : clear implicits.
Arguments M : clear implicits.

(** ** Vocabulary of the statements *)

(** The record calls of a run, in the order they are made. *)
Definition record_all (operations : list FileOperation) (h : HistoryManager)
  : HistoryManager :=
  foldl (λ h operation, recordOperation operation h) h operations.

(** The storage call that [operation.undo()] makes. *)
Definition reversal_io {FS : Type} `{FileSystem FS} (operation : FileOperation)
    (fs : FS) : outcome unit * FS :=
  match operation with
  | FileCreateOperation p => fs_delete fs p true
  | FileUpdateOperation p b => fs_writeFile fs p b
  | FileDeleteOperation p b => fs_writeFile fs p b
  end.

(** The words [operation.undo()] puts before the cause when it rethrows. *)
Definition reversal_failure (operation : FileOperation) : string :=
  match operation with
  | FileCreateOperation _ => "Failed to undo file creation: "
  | FileUpdateOperation _ _ => "Failed to undo file update: "
  | FileDeleteOperation _ _ => "Failed to undo file deletion: "
  end.

(** The message [HistoryManager.undo] shows for the entry it popped, given
    how the storage call of that entry ended. *)
Definition undo_notice (operation : FileOperation) (r : outcome unit) : Notice :=
  match r with
  | Ok _ => Information "Operation undone successfully"
  | Throw e =>
      ErrorMessage ("Failed to undo operation: "
                    +:+ reversal_failure operation +:+ errorMessage e)
  end.

(** The log without its last entry. *)
Definition popped (h : HistoryManager) : HistoryManager :=
  {| _operations := removelast (_operations h);
     _maxHistorySize := _maxHistorySize h |}.

(** What [HistoryManager.undo] does with the entry it popped: the [try]
    block and its [catch]. *)
Definition undo_popped {FS AI : Type} `{FileSystem FS}
    (lastOperation : FileOperation) : M FS AI unit :=
  try_catch
    (bind (FileOperation_undo lastOperation)
       (λ _, showInformationMessage "Operation undone successfully"))
    (λ error, showErrorMessage
       ("Failed to undo operation: " +:+ errorMessage error)).

(** The last call of [undo] went through. *)
Definition undone {FS AI : Type} (w : World FS AI) : Prop :=
  last (w_window w) = Some (Information "Operation undone successfully").

(** The outcomes of the content requests of [_generateLargerProject], one
    per path, in the order the loop makes them, from the world [w]. *)
Fixpoint content_requests {FS AI ProjectAnalysis : Type} `{Completions AI}
    `{Prompts ProjectAnalysis} (description framework : string)
    (filePaths : list string) (w : World FS AI) : list (outcome string) :=
  match filePaths with
  | [] => []
  | filePath :: rest =>
      let (r, w') := _callAI (filePrompt filePath description framework) 2048 w in
      r :: content_requests description framework rest w'
  end.

(** The entry of the plan for [filePath], given how its request ended. *)
Definition plan_entry (filePath : string) (r : outcome string) : GeneratedFile :=
  match r with
  | Ok fileContent => {| path := filePath; content := extract_code fileContent |}
  | Throw error => {| path := filePath; content := failed_content error |}
  end.

(** ** An in-memory storage

    A tree of directories and files. A path is cut at its slashes; empty
    parts and [.] are skipped. Writing a file makes the missing directories
    above it, as the editor's [writeFile] does; a call that throws leaves
    the tree as it was. *)

Inductive node :=
  | File (data : bytes)
  | Dir (entries : gmap string node).

Definition flush (part : string) : list string :=
  if decide (part = EmptyString ∨ part = ".") then [] else [part].

Fixpoint segments_from (part s : string) : list string :=
  match s with
  | EmptyString => flush part
  | String c s' =>
      if Ascii.eqb c "/" then flush part ++ segments_from EmptyString s'
      else segments_from (part +:+ String c EmptyString) s'
  end.

Definition segments (p : string) : list string := segments_from EmptyString p.

Fixpoint walk (n : node) (segs : list string) : option node :=
  match segs with
  | [] => Some n
  | name :: rest =>
      match n with
      | Dir entries => entries !! name ≫= λ child, walk child rest
      | File _ => None
      end
  end.

Fixpoint write (n : node) (segs : list string) (b : bytes) : option node :=
  match segs with
  | [] => match n with File _ => Some (File b) | Dir _ => None end
  | name :: rest =>
      match n with
      | Dir entries =>
          let child :=
            match entries !! name with
            | Some child => child
            | None => match rest with [] => File [] | _ :: _ => Dir ∅ end
            end in
          write child rest b ≫= λ child', Some (Dir (<[name := child']> entries))
      | File _ => None
      end
  end.

Fixpoint remove (n : node) (segs : list string) (recursive : bool) : option node :=
  match segs with
  | [] => None
  | name :: rest =>
      match n with
      | Dir entries =>
          match rest with
          | [] =>
              match entries !! name with
              | Some (Dir sub) =>
                  if recursive || bool_decide (size sub = 0)
                  then Some (Dir (delete name entries)) else None
              | Some (File _) => Some (Dir (delete name entries))
              | None => None
              end
          | _ :: _ =>
              entries !! name ≫= λ child,
              remove child rest recursive ≫= λ child',
              Some (Dir (<[name := child']> entries))
          end
      | File _ => None
      end
  end.

Fixpoint mkdirp (n : node) (segs : list string) : option node :=
  match segs with
  | [] => match n with Dir _ => Some n | File _ => None end
  | name :: rest =>
      match n with
      | Dir entries =>
          mkdirp (default (Dir ∅) (entries !! name)) rest ≫= λ child',
          Some (Dir (<[name := child']> entries))
      | File _ => None
      end
  end.

Definition FileNotFound (p : string) : thrown :=
  ErrorObject "EntryNotFound (FileSystemError)" p.
Definition FileIsADirectory (p : string) : thrown :=
  ErrorObject "EntryIsADirectory (FileSystemError)" p.
Definition Unavailable (p : string) : thrown :=
  ErrorObject "Unavailable (FileSystemError)" p.

#[global] Instance MemFs : FileSystem node := {|
  fs_stat fs p :=
    match walk fs (segments p) with
    | Some _ => Ok tt
    | None => Throw (FileNotFound p)
    end;
  fs_readFile fs p :=
    match walk fs (segments p) with
    | Some (File b) => Ok b
    | Some (Dir _) => Throw (FileIsADirectory p)
    | None => Throw (FileNotFound p)
    end;
  fs_writeFile fs p b :=
    match write fs (segments p) b with
    | Some fs' => (Ok tt, fs')
    | None => (Throw (Unavailable p), fs)
    end;
  fs_delete fs p recursive :=
    match remove fs (segments p) recursive with
    | Some fs' => (Ok tt, fs')
    | None => (Throw (Unavailable p), fs)
    end;
  fs_createDirectory fs p :=
    match mkdirp fs (segments p) with
    | Some fs' => (Ok tt, fs')
    | None => (Throw (Unavailable p), fs)
    end
|}.

(** The part of [s] before its last slash, if it has one. *)
Fixpoint before_last_slash (s : string) : option string :=
  match s with
  | EmptyString => None
  | String c s' =>
      match before_last_slash s' with
      | Some d => Some (String c d)
      | None => if Ascii.eqb c "/" then Some EmptyString else None
      end
  end.

(** POSIX paths without a trailing slash: the directory of [a/b] is [a],
    that of [/a] is [/], that of [a] is [.]. *)
#[global] Instance PosixPath : NodePath := {|
  path_dirname p :=
    match before_last_slash p with
    | None => "."
    | Some EmptyString => "/"
    | Some d => d
    end;
  path_join a b := a +:+ "/" +:+ b
|}.

(** A completion service that plays back the answers it was given. *)
Definition Script := list (outcome (option string)).

#[global] Instance Playback : Completions Script := {|
  chat_completions_create ai model prompt max_tokens :=
    match ai with
    | r :: rest => (r, rest)
    | [] => (Throw (new_Error "Connection error."), [])
    end
|}.

(** [JSON.parse] on the arrays of strings that the structure request asks
    for, such as [["package.json", "src/index.js"]]. This instance reads
    arrays of string literals without escapes and refuses every other
    text. *)
Definition QUOTE : ascii := "034".

Definition is_json_space (c : ascii) : bool :=
  let n := nat_of_ascii c in
  (n =? 32) || (n =? 9) || (n =? 10) || (n =? 13).

Fixpoint skip_space (s : string) : string :=
  match s with
  | String c s' => if is_json_space c then skip_space s' else s
  | EmptyString => EmptyString
  end.

(** The characters up to the closing quote, and what follows it. *)
Fixpoint string_literal (s : string) : option (string * string) :=
  match s with
  | EmptyString => None
  | String c s' =>
      if Ascii.eqb c QUOTE then Some (EmptyString, s')
      else if Ascii.eqb c "\" || (nat_of_ascii c <? 32) then None
      else string_literal s' ≫= λ '(lit, rest), Some (String c lit, rest)
  end.

(** The elements after [[] or a comma, up to the closing bracket, which
    must end the text. *)
Fixpoint array_elements (fuel : nat) (s : string) : option (list string) :=
  match fuel with
  | 0 => None
  | S fuel =>
      match s with
      | String c s' =>
          if Ascii.eqb c QUOTE then
            string_literal s' ≫= λ '(lit, rest),
            match skip_space rest with
            | String d rest' =>
                if Ascii.eqb d "," then
                  cons lit <$> array_elements fuel (skip_space rest')
                else if Ascii.eqb d "]" then
                  match skip_space rest' with
                  | EmptyString => Some [lit]
                  | String _ _ => None
                  end
                else None
            | EmptyString => None
            end
          else None
      | EmptyString => None
      end
  end.

Definition parse_string_array (text : string) : option (list string) :=
  match skip_space text with
  | String c s =>
      if Ascii.eqb c "[" then
        match skip_space s with
        | String d s' =>
            if Ascii.eqb d "]" then
              match skip_space s' with
              | EmptyString => Some []
              | String _ _ => None
              end
            else array_elements (String.length text) (skip_space s)
        | EmptyString => None
        end
      else None
  | EmptyString => None
  end.

(** Contents within ASCII, where UTF-8 has one byte per code unit. *)
#[global] Instance AsciiBuiltins : Builtins := {|
  Buffer_from := list_byte_of_string;
  JSON_parse_paths := parse_string_array
|}.

(** Prompts cut down to the values they carry. *)
#[global] Instance ShortPrompts : Prompts unit := {|
  structurePrompt description framework :=
    "Paths of a " +:+ framework +:+ " application for: " +:+ description;
  filePrompt filePath description framework :=
    "Code of " +:+ filePath +:+ " in a " +:+ framework +:+ " project: "
    +:+ description;
  projectPrompt description framework :=
    "A complete " +:+ framework +:+ " application for: " +:+ description;
  updatePrompt _ newRequirements := "Update plan for: " +:+ newRequirements
|}.

(** A world around the in-memory collaborators. *)
Definition world_of (fs : node) (ai : Script) : World node Script :=
  {| w_fs := fs; w_history := new_HistoryManager; w_ai := ai;
     w_openai := true;
     w_config := {| cfg_model := None; cfg_maxTokens := None |};
     w_window := [] |}.

(** A project directory [proj] holding [a.txt] with the bytes of [hello]. *)
Definition sample_fs : node :=
  Dir {[ "proj" := Dir {[ "a.txt" := File (list_byte_of_string "hello") ]} ]}.

(** ** Sample inputs *)

(** A description of [n] characters. *)
Definition description_of (n : nat) : string :=
  string_of_list_ascii (repeat "x"%char n).

(** A hundred and one operations, on the files [0], [1], ... *)
Definition sample_operations : list FileOperation :=
  (λ n : nat, FileCreateOperation (pretty n)) <$> seq 0 101.

(** [s] as a JSON string literal, for [s] without quotes or backslashes. *)
Definition quoted (s : string) : string :=
  String QUOTE (s +:+ String QUOTE EmptyString).

(** The answers of a run in which the model lists three paths, wraps the
    first file in a fence, fails on the second and answers the third
    plainly. *)
Definition three_files_script : Script :=
  [ Ok (Some ("Here you go: [" +:+ quoted "a.js" +:+ ", " +:+ quoted "b.js"
              +:+ ", " +:+ quoted "c.js" +:+ "]"));
    Ok (Some (FENCE +:+ "js" +:+ LF +:+ "let a;" +:+ LF +:+ FENCE));
    Throw (new_Error "429 Rate limit reached");
    Ok (Some "let c;") ].

(** An entry of an update plan that asks for a new file and carries no
    content. *)
Definition entry_without_content : UpdateEntry :=
  {| entry_path := "b.txt"; entry_action := ActionCreate;
     entry_content := None |}.

(** A world whose log still holds the creation of a file that is no longer
    in the storage. *)
Definition world_with_stale_entry : World node Script :=
  set_history
    {| _operations := [FileCreateOperation "proj/gone.txt"];
       _maxHistorySize := 100 |}
    (world_of sample_fs []).

(** The examples stay away from the two single-request plans; where a
    statement still takes their parser, this one, which finds no plan in
    any text, stands for it. *)
Definition no_plan : PlanParsers :=
  {| JSON_parse_ProjectStructure := λ _, None;
     JSON_parse_UpdatePlan := λ _, None |}.

(** ** The rest of the services *)

(** [Buffer.from(content).toString('utf8')] *)
Class Decoder := { Buffer_toString : bytes → string }.

(** [path.extname] and [path.relative] of Node. *)
Class NodePathMore := {
  path_extname : string → string;
  path_relative : string → string → string
}.

(** [vscode.workspace.fs.readDirectory]: the names in a directory, each
    with its [vscode.FileType] (a number: 1 for a file, 2 for a directory,
    64 added for a symbolic link). *)
Class DirectoryReader (FS : Type) := {
  fs_readDirectory : FS → string → outcome (list (string * N))
}.

(** The text of the prompts of the two single-file requests. *)
Class CodePrompts := {
  componentPrompt : string → string → string → string;
  functionPrompt : string → string → string
}.

(** What a storage does, further, when nothing goes wrong underneath: a
    file that was written and a directory that was made are there. *)
Class StorageLaws (FS : Type) `{FileSystem FS} : Prop := {
  stat_after_write : ∀ fs p b fs',
    fs_writeFile fs p b = (Ok tt, fs') → fs_stat fs' p = Ok tt;
  stat_after_createDirectory : ∀ fs p fs',
    fs_createDirectory fs p = (Ok tt, fs') → fs_stat fs' p = Ok tt
}.

(** [interface ComponentGenerationResult] *)
Record ComponentGenerationResult := { filePath : string; code : string }.

(** [vscode.FileType.Directory] *)
Definition FileType_Directory : N := 2.

(** [s.includes(needle)] *)
Definition includes (needle s : string) : bool :=
  match search (strip_prefix needle) s with Some _ => true | None => false end.

(** The framework that [generateComponent] takes from the target path. *)
Definition component_framework (fileExt targetPath : string) : string :=
  if decide (fileExt = ".vue") then "vue"
  else if decide (fileExt = ".svelte") then "svelte"
  else if includes "angular" targetPath then "angular"
  else "react".

(** [['.ts', '.tsx'].includes(fileExt)] decides the language. *)
Definition component_language (fileExt : string) : string :=
  if bool_decide (fileExt ∈ [".ts"; ".tsx"]) then "typescript" else "javascript".

(** The names that [_scanDirectory] passes over. *)
Definition skipped_directories : list string :=
  ["node_modules"; "dist"; "build"; ".git"].

Section MoreServices.
Context {FS AI : Type}.
Context `{FileSystem FS} `{NodePath} `{Completions AI} `{Builtins}.
Context `{Decoder} `{NodePathMore} `{DirectoryReader FS} `{CodePrompts}.

Notation "'let!' x ':=' m 'in' k" := (bind m (λ x, k))
  (at level 10, x name, m at level 100, k at level 200, only parsing).
Notation "'run!' m 'in' k" := (bind m (λ _, k))
  (at level 10, m at level 100, k at level 200, only parsing).

(** [FileSystemService.readFile] *)
Definition readFile (filePath : string) : M FS AI string :=
  try_catch
    (let! fileContent := workspace_fs_readFile filePath in
     ret (Buffer_toString fileContent))
    (λ error, throw (new_Error
       ("Failed to read file: " +:+ errorMessage error))).

(** The request that [_generateComponentCode] and [_generateFunctionCode]
    both make: the two bodies differ by the prompt and by the message of
    their last [throw]. *)
Definition request_code (prompt notInitialized : string) : M FS AI string :=
  let! config := getConfiguration in
  try_catch
    (let! openai := this_openai in
     let otherwise : M FS AI string := throw (new_Error notInitialized) in
     if openai : bool then
       let! responseContent :=
         completions_create (request_model config) prompt
           (request_maxTokens config) in
       match responseContent with
       | Some responseContent =>
           if truthy responseContent then ret (extract_code responseContent)
           else otherwise
       | None => otherwise
       end
     else otherwise)
    (λ error, throw (new_Error
       ("Error calling AI API: " +:+ errorMessage error))).

Definition _generateComponentCode (description framework language : string)
  : M FS AI string :=
  request_code (componentPrompt description framework language)
    "Failed to generate component code. API not initialized.".

Definition _generateFunctionCode (description language : string)
  : M FS AI string :=
  request_code (functionPrompt description language)
    "Failed to generate function code. API not initialized.".

Definition generateComponent (description targetPath : string)
  : M FS AI ComponentGenerationResult :=
  let! configured := _checkApiKey in
  if negb configured then throw (new_Error "API key not configured")
  else
    try_catch
      (let fileExt := path_extname targetPath in
       let framework := component_framework fileExt targetPath in
       let language := component_language fileExt in
       let! componentCode :=
         _generateComponentCode description framework language in
       run! createFile targetPath componentCode in
       ret {| filePath := targetPath; code := componentCode |})
      (λ error, throw (new_Error
         ("Failed to generate component: " +:+ errorMessage error))).

Definition workspace_fs_readDirectory (p : string) : M FS AI (list (string * N)) :=
  λ w, (fs_readDirectory (w_fs w) p, w).

(** The body of the loop of [_scanDirectory]; [files] is its local array,
    [deeper] the recursive call. *)
Definition scan_entry (deeper : string → M FS AI (list string))
    (dirPath : string) (entry : string * N) (files : list string)
  : M FS AI (list string) :=
  let (name, type) := entry in
  let fullPath := path_join dirPath name in
  let relativePath := path_relative dirPath fullPath in
  if bool_decide (name ∈ skipped_directories) then ret files
  else if decide (type = FileType_Directory) then
    let files := files ++ [relativePath +:+ "/"] in
    let! subDirFiles := deeper fullPath in
    ret (files ++ (path_join relativePath <$> subDirFiles))
  else ret (files ++ [relativePath]).

(** [_scanDirectory] with [levels] standing for [maxDepth - currentDepth]:
    the call returns at once when [currentDepth >= maxDepth], and the
    recursive call has one level less. *)
Fixpoint scan_levels (levels : nat) (dirPath : string) : M FS AI (list string) :=
  match levels with
  | 0 => ret []
  | S levels' =>
      try_catch
        (let! entries := workspace_fs_readDirectory dirPath in
         for_of entries (scan_entry (scan_levels levels') dirPath) [])
        (λ error, ret [])
  end.

Definition _scanDirectory (dirPath : string) (maxDepth currentDepth : nat)
  : M FS AI (list string) :=
  scan_levels (maxDepth - currentDepth) dirPath.

End MoreServices.

(** *** Vocabulary of the further statements *)

(** The log is within its capacity. *)
Definition within_capacity (h : HistoryManager) : Prop :=
  length (_operations h) ≤ _maxHistorySize h.

(** [c] does not occur in [s]. *)
Fixpoint free_of (c : ascii) (s : string) : bool :=
  match s with
  | EmptyString => true
  | String x s' => negb (Ascii.eqb x c) && free_of c s'
  end.

(** All the characters of [s] are word characters. *)
Fixpoint all_word (s : string) : bool :=
  match s with
  | EmptyString => true
  | String x s' => is_word x && all_word s'
  end.

(** The in-memory storage lists a directory by the names of its entries. *)
#[global] Instance MemFsReader : DirectoryReader node := {|
  fs_readDirectory fs p :=
    match walk fs (segments p) with
    | Some (Dir entries) =>
        Ok ((λ '(name, child),
               (name, match child with File _ => 1%N | Dir _ => 2%N end))
            <$> map_to_list entries)
    | Some (File _) => Throw (FileNotFound p)
    | None => Throw (FileNotFound p)
    end
|}.

(** ASCII bytes back to a string. *)
#[global] Instance AsciiDecoder : Decoder := {|
  Buffer_toString := string_of_list_byte
|}.

(** The part of [s] from its last dot on, when that dot is not the first
    character of the last part of the path. *)
Fixpoint last_dot_suffix (s : string) : option string :=
  match s with
  | EmptyString => None
  | String c s' =>
      match last_dot_suffix s' with
      | Some e => Some e
      | None => if Ascii.eqb c "." then Some s else None
      end
  end.

Definition basename (p : string) : string :=
  match rev (segments p) with
  | name :: _ => name
  | [] => EmptyString
  end.

(** POSIX paths again: the extension of [a/b.ts] is [.ts], a name such as
    [.git] has none; [path.relative] gives back the name it was joined
    from. *)
#[global] Instance PosixPathMore : NodePathMore := {|
  path_extname p :=
    match basename p with
    | String _ rest => default EmptyString (last_dot_suffix rest)
    | EmptyString => EmptyString
    end;
  path_relative from to := default to (strip_prefix (from +:+ "/") to)
|}.

#[global] Instance ShortCodePrompts : CodePrompts := {|
  componentPrompt description framework language :=
    "A " +:+ framework +:+ " component in " +:+ language +:+ ": " +:+ description;
  functionPrompt description language :=
    "A function in " +:+ language +:+ ": " +:+ description
|}.

(** *** Further sample inputs *)

(** The sample world after the key was taken out of the settings. *)
Definition world_without_client : World node Script :=
  {| w_fs := sample_fs; w_history := new_HistoryManager; w_ai := [];
     w_openai := false;
     w_config := {| cfg_model := None; cfg_maxTokens := None |};
     w_window := [] |}.

(** The answers of a chunked run whose second path, [a.txt], is already in
    the project. *)
Definition colliding_script : Script :=
  [ Ok (Some ("[" +:+ quoted "new.txt" +:+ ", " +:+ quoted "a.txt" +:+ ", "
              +:+ quoted "c.txt" +:+ "]"));
    Ok (Some "one"); Ok (Some "two"); Ok (Some "three") ].

(** The answer to a component request: a fenced block of TypeScript. *)
Definition component_script : Script :=
  [ Ok (Some ("Sure." +:+ LF +:+ FENCE +:+ "tsx" +:+ LF
              +:+ "export const B = 1;" +:+ LF +:+ FENCE)) ].
(** * Properties *)

Lemma recordOperation_max operation h :
  _maxHistorySize (recordOperation operation h) = _maxHistorySize h.
Proof. unfold recordOperation. by case_decide. Qed.

Lemma recordOperation_operations operation h :
  length (_operations h) ≤ _maxHistorySize h →
  _operations (recordOperation operation h)
  = drop (length (_operations h ++ [operation]) - _maxHistorySize h)
      (_operations h ++ [operation]).
Proof.
  intros Hinv. unfold recordOperation.
  rewrite length_app. simpl. case_decide; simpl.
  - replace (length (_operations h) + 1 - _maxHistorySize h) with 1 by lia.
    destruct (_operations h); reflexivity.
  - replace (length (_operations h) + 1 - _maxHistorySize h) with 0 by lia.
    reflexivity.
Qed.

Lemma recordOperation_length operation h :
  length (_operations h) ≤ _maxHistorySize h →
  length (_operations (recordOperation operation h)) ≤ _maxHistorySize h.
Proof.
  intros Hinv. rewrite recordOperation_operations by done.
  rewrite length_drop. lia.
Qed.

Lemma record_all_max operations h :
  _maxHistorySize (record_all operations h) = _maxHistorySize h.
Proof.
  revert h. induction operations as [|o os IH]; intros h; [done|].
  change (record_all (o :: os) h) with (record_all os (recordOperation o h)).
  rewrite IH. apply recordOperation_max.
Qed.

Lemma record_all_operations operations h :
  length (_operations h) ≤ _maxHistorySize h →
  _operations (record_all operations h)
  = drop (length (_operations h ++ operations) - _maxHistorySize h)
      (_operations h ++ operations).
Proof.
  revert h. induction operations as [|o os IH]; intros h Hinv.
  - simpl. rewrite app_nil_r.
    replace (length (_operations h) - _maxHistorySize h) with 0 by lia. done.
  - change (record_all (o :: os) h) with (record_all os (recordOperation o h)).
    rewrite IH by (rewrite recordOperation_max; by apply recordOperation_length).
    rewrite recordOperation_max, recordOperation_operations by done.
    set (N := _maxHistorySize h). set (l := _operations h) in *.
    rewrite <- drop_app_le by (rewrite length_app; simpl; lia).
    rewrite <- app_assoc. simpl.
    rewrite drop_drop. f_equal.
    rewrite length_drop, !length_app. simpl. lia.
Qed.

(** C3. Whatever is recorded into a log that is within its capacity [N]
    ([_maxHistorySize], 100 in a new manager), the log stays within [N]. A
    record into a full log drops the oldest entry at the head and puts the
    new entry at the tail. The log is always the last [N] entries of
    everything it was given, in the order of insertion; after more than
    [N] records it holds exactly the [N] entries recorded last. *)
Theorem operation_log_bounded (h : HistoryManager) (operations : list FileOperation) :
  length (_operations h) ≤ _maxHistorySize h →
  let N := _maxHistorySize h in
  let h' := record_all operations h in
  length (_operations h') ≤ N
  ∧ (∀ oldest rest operation,
       _operations h = oldest :: rest → length (_operations h) = N →
       _operations (recordOperation operation h) = rest ++ [operation])
  ∧ _operations h'
    = drop (length (_operations h ++ operations) - N) (_operations h ++ operations)
  ∧ (N < length operations →
     length (_operations h') = N
     ∧ _operations h' = drop (length operations - N) operations).
Proof.
  intros Hinv N h'. subst h'.
  pose proof (record_all_operations operations h Hinv) as Hall. fold N in Hall.
  split_and!.
  - rewrite Hall, length_drop. lia.
  - intros oldest rest operation Hops Hfull.
    rewrite recordOperation_operations by done. fold N.
    rewrite Hops in *. rewrite length_app. simpl in *.
    replace (S (length rest + 1) - N) with 1 by lia. done.
  - done.
  - intros Hmore. rewrite Hall. split.
    + rewrite length_drop, length_app. lia.
    + rewrite length_app.
      replace (length (_operations h) + length operations - N)
        with (length (_operations h) + (length operations - N)) by lia.
      by rewrite drop_app_add.
Qed.

(** ** The in-memory storage keeps the laws *)

Lemma segments_from_slash part a b :
  segments_from part (a +:+ "/" +:+ b) = segments_from part a ++ segments b.
Proof.
  revert part. induction a as [|c a IH]; intros part; simpl.
  - reflexivity.
  - destruct (Ascii.eqb c "/"); [|apply IH].
    rewrite IH. by rewrite app_assoc.
Qed.

Lemma before_last_slash_split s d :
  before_last_slash s = Some d → ∃ rest, s = d +:+ "/" +:+ rest.
Proof.
  revert d. induction s as [|c s IH]; intros d; simpl; [done|].
  destruct (before_last_slash s) as [d'|].
  - intros [= <-]. destruct (IH d' eq_refl) as [rest ->]. by exists rest.
  - destruct (Ascii.eqb_spec c "/") as [->|]; [|done].
    intros [= <-]. by exists s.
Qed.

Lemma walk_prefix n a b :
  is_Some (walk n (a ++ b)) → is_Some (walk n a).
Proof.
  revert n. induction a as [|name a IH]; intros n; simpl; [by eauto|].
  destruct n as [|entries]; [done|].
  destruct (entries !! name) as [child|]; simpl; [apply IH|done].
Qed.

Lemma walk_dirname n p :
  is_Some (walk n (segments p)) → is_Some (walk n (segments (path_dirname p))).
Proof.
  intros Hp. simpl.
  destruct (before_last_slash p) as [d|] eqn:Hd; [|by eauto].
  destruct (before_last_slash_split _ _ Hd) as [rest ->].
  unfold segments in Hp. rewrite segments_from_slash in Hp.
  apply walk_prefix in Hp.
  destruct d; [by eauto|done].
Qed.

Lemma write_walk n segs b n' :
  write n segs b = Some n' → walk n' segs = Some (File b).
Proof.
  revert n n'. induction segs as [|name rest IH]; intros n n'; simpl.
  - destruct n; [|done]. by intros [= <-].
  - destruct n as [|entries]; [done|].
    match goal with |- context [write ?c rest b] =>
      destruct (write c rest b) as [child'|] eqn:Hw end; [|done].
    simpl. intros [= <-]. simpl. rewrite lookup_insert_eq. simpl. eauto.
Qed.

Lemma remove_walk n segs recursive n' :
  remove n segs recursive = Some n' → walk n' segs = None.
Proof.
  revert n n'. induction segs as [|name rest IH]; intros n n'; [done|].
  destruct n as [|entries]; [done|].
  destruct rest as [|name' rest].
  - simpl. destruct (entries !! name) as [[|sub]|]; [| |done].
    + intros [= <-]. simpl. by rewrite lookup_delete_eq.
    + destruct (recursive || bool_decide (size sub = 0)); [|done].
      intros [= <-]. simpl. by rewrite lookup_delete_eq.
  - change (remove (Dir entries) (name :: name' :: rest) recursive)
      with (entries !! name ≫= λ child,
            remove child (name' :: rest) recursive ≫= λ child',
            Some (Dir (<[name := child']> entries))).
    destruct (entries !! name) as [child|]; [|done].
    change (Some child ≫= ?f) with (f child). cbv beta.
    destruct (remove child (name' :: rest) recursive) as [child'|] eqn:Hr; [|done].
    intros [= <-].
    change (walk (Dir (<[name:=child']> entries)) (name :: name' :: rest))
      with (<[name:=child']> entries !! name ≫= λ c, walk c (name' :: rest)).
    rewrite lookup_insert_eq. apply (IH _ _ Hr).
Qed.

#[global] Instance MemFs_laws : FileSystemLaws node.
Proof.
  split.
  - intros fs p. simpl.
    pose proof (walk_dirname fs p) as Hd. simpl in Hd.
    destruct (walk fs (segments p)); [|done]. intros _.
    destruct Hd as [x ->]; [by eauto|done].
  - intros fs p b fs'. simpl.
    destruct (write fs (segments p) b) as [n'|] eqn:Hw; [|done].
    intros [= <-]. by rewrite (write_walk _ _ _ _ Hw).
  - intros fs p recursive fs'. simpl.
    destruct (remove fs (segments p) recursive) as [n'|] eqn:Hr; [|done].
    intros [= <-]. rewrite (remove_walk _ _ _ _ Hr). eauto.
Qed.

Section FileMutator.
Context {FS AI : Type} `{FileSystem FS} `{NodePath} `{Builtins}.
Implicit Types (w : World FS AI) (filePath content : string).

Lemma fileExists_stat w filePath :
  fileExists filePath w
  = (Ok (match fs_stat (w_fs w) filePath with Ok _ => true | Throw _ => false end), w).
Proof.
  unfold fileExists, try_catch, bind, ret, workspace_fs_stat.
  by destruct (fs_stat (w_fs w) filePath).
Qed.

Lemma ensureDirectory_existing w dirPath :
  fs_stat (w_fs w) dirPath = Ok tt → ensureDirectory dirPath w = (Ok tt, w).
Proof.
  intros Hstat. unfold ensureDirectory, try_catch, workspace_fs_stat.
  by rewrite Hstat.
Qed.

(** C2. On a storage that keeps the laws, [createFile] on a path that
    exists throws [File already exists] and leaves the whole world as it
    was: no file is written, no directory is made, and the log gets no
    entry. *)
Theorem createFile_existing `{!FileSystemLaws FS} w filePath content :
  fs_stat (w_fs w) filePath = Ok tt →
  createFile filePath content w
  = (Throw (new_Error ("Failed to create file: File already exists: " +:+ filePath)), w).
Proof.
  intros Hstat. unfold createFile, try_catch, bind.
  rewrite ensureDirectory_existing by by apply stat_dirname.
  rewrite fileExists_stat, Hstat. reflexivity.
Qed.


(** What a successful call leaves behind: one write, one entry. *)
Lemma createFile_inv w filePath content w1 :
  createFile filePath content w = (Ok tt, w1) →
  ∃ w0 fs1,
    ensureDirectory (path_dirname filePath) w = (Ok tt, w0)
    ∧ fs_writeFile (w_fs w0) filePath (Buffer_from content) = (Ok tt, fs1)
    ∧ w1 = set_history
             (recordOperation (FileCreateOperation filePath) (w_history w0))
             (set_fs fs1 w0).
Proof.
  unfold createFile, try_catch, bind.
  destruct (ensureDirectory (path_dirname filePath) w) as [[[]|e0] w0]; [|done].
  rewrite fileExists_stat.
  destruct (fs_stat (w_fs w0) filePath); [done|].
  unfold workspace_fs_writeFile, historyManager_recordOperation.
  destruct (fs_writeFile (w_fs w0) filePath (Buffer_from content))
    as [[[]|e1] fs1] eqn:Hwrite; [|done].
  intros [= <-]. by exists w0, fs1.
Qed.

Lemma updateFile_inv w filePath content w1 :
  updateFile filePath content w = (Ok tt, w1) →
  ∃ existingContent fs1,
    fs_readFile (w_fs w) filePath = Ok existingContent
    ∧ fs_writeFile (w_fs w) filePath (Buffer_from content) = (Ok tt, fs1)
    ∧ w1 = set_history
             (recordOperation (FileUpdateOperation filePath existingContent)
                (w_history w))
             (set_fs fs1 w).
Proof.
  unfold updateFile, try_catch, bind. rewrite fileExists_stat.
  destruct (fs_stat (w_fs w) filePath); [|done]. simpl.
  unfold workspace_fs_readFile, workspace_fs_writeFile,
    historyManager_recordOperation.
  destruct (fs_readFile (w_fs w) filePath) as [existingContent|]; [|done].
  destruct (fs_writeFile (w_fs w) filePath (Buffer_from content))
    as [[[]|e1] fs1] eqn:Hwrite; [|done].
  intros [= <-]. by exists existingContent, fs1.
Qed.

Lemma deleteFile_inv w filePath w1 :
  deleteFile filePath w = (Ok tt, w1) →
  ∃ existingContent fs1,
    fs_readFile (w_fs w) filePath = Ok existingContent
    ∧ fs_delete (w_fs w) filePath false = (Ok tt, fs1)
    ∧ w1 = set_history
             (recordOperation (FileDeleteOperation filePath existingContent)
                (w_history w))
             (set_fs fs1 w).
Proof.
  unfold deleteFile, try_catch, bind. rewrite fileExists_stat.
  destruct (fs_stat (w_fs w) filePath); [|done]. simpl.
  unfold workspace_fs_readFile, workspace_fs_delete,
    historyManager_recordOperation.
  destruct (fs_readFile (w_fs w) filePath) as [existingContent|]; [|done].
  destruct (fs_delete (w_fs w) filePath false) as [[[]|e1] fs1] eqn:Hdel; [|done].
  intros [= <-]. by exists existingContent, fs1.
Qed.

(** C10. [fileExists] never throws, and answers [false] whenever [stat]
    throws, for whatever reason. So on a path on which [stat] throws,
    [updateFile] and [deleteFile] throw [File does not exist] and touch
    nothing, and [createFile], once [ensureDirectory] has returned on the
    parent, goes on to the write: its result is that of the write. *)
Theorem stat_failure_reads_as_absence w filePath content e :
  fs_stat (w_fs w) filePath = Throw e →
  (∀ w' p, ∃ b, fileExists p w' = (Ok b, w'))
  ∧ fileExists filePath w = (Ok false, w)
  ∧ updateFile filePath content w
    = (Throw (new_Error
         ("Failed to update file: File does not exist: " +:+ filePath)), w)
  ∧ deleteFile filePath w
    = (Throw (new_Error
         ("Failed to delete file: File does not exist: " +:+ filePath)), w)
  ∧ (∀ w0 e0,
       ensureDirectory (path_dirname filePath) w = (Ok tt, w0) →
       fs_stat (w_fs w0) filePath = Throw e0 →
       createFile filePath content w
       = match fs_writeFile (w_fs w0) filePath (Buffer_from content) with
         | (Ok _, fs1) =>
             (Ok tt,
              set_history
                (recordOperation (FileCreateOperation filePath) (w_history w0))
                (set_fs fs1 w0))
         | (Throw e1, fs1) =>
             (Throw (new_Error ("Failed to create file: " +:+ errorMessage e1)),
              set_fs fs1 w0)
         end).
Proof.
  intros Hstat. split_and!.
  - intros w' p. rewrite fileExists_stat. eauto.
  - by rewrite fileExists_stat, Hstat.
  - unfold updateFile, try_catch, bind. by rewrite fileExists_stat, Hstat.
  - unfold deleteFile, try_catch, bind. by rewrite fileExists_stat, Hstat.
  - intros w0 e0 Hdir Hstat0. unfold createFile, try_catch, bind.
    rewrite Hdir, fileExists_stat, Hstat0.
    unfold workspace_fs_writeFile, historyManager_recordOperation.
    by destruct (fs_writeFile (w_fs w0) filePath (Buffer_from content))
      as [[[]|e1] fs1].
Qed.

End FileMutator.

(** ** Undo *)

Lemma recordOperation_keeps operation h base kept :
  length kept < _maxHistorySize h →
  _operations h = base ++ kept →
  ∃ base', _operations (recordOperation operation h) = base' ++ kept ++ [operation].
Proof.
  intros Hroom Hops. unfold recordOperation. rewrite Hops.
  case_decide as Hfull; simpl.
  - destruct base as [|oldest base]; simpl in *.
    + rewrite length_app in Hfull. simpl in Hfull. lia.
    + exists base. by rewrite <- app_assoc.
  - exists base. by rewrite <- app_assoc.
Qed.

Lemma recordOperation_last operation h :
  _operations (recordOperation operation h) = []
  ∨ ∃ base, _operations (recordOperation operation h) = base ++ [operation].
Proof.
  unfold recordOperation. case_decide; simpl.
  - destruct (_operations h) as [|oldest rest]; simpl; eauto.
  - eauto.
Qed.

Section Undo.
Context {FS AI : Type} `{FileSystem FS}.
Implicit Types (w : World FS AI) (operation : FileOperation).

Lemma undo_nonempty w base operation :
  _operations (w_history w) = base ++ [operation] →
  undo w = undo_popped operation (set_history (popped (w_history w)) w).
Proof.
  intros Hops. unfold undo, pop, popped. rewrite Hops.
  rewrite length_app. simpl. case_decide; [lia|].
  by rewrite last_snoc.
Qed.

Lemma undo_empty w :
  _operations (w_history w) = [] →
  undo w = (Ok tt, show (Information "Nothing to undo") w).
Proof. intros Hops. unfold undo. by rewrite Hops. Qed.

Lemma FileOperation_undo_io w operation :
  FileOperation_undo operation w
  = match reversal_io operation (w_fs w) with
    | (Ok _, fs') => (Ok tt, set_fs fs' w)
    | (Throw e, fs') =>
        (Throw (new_Error (reversal_failure operation +:+ errorMessage e)),
         set_fs fs' w)
    end.
Proof.
  destruct operation as [p|p b|p b]; simpl;
    unfold FileCreateOperation_undo, FileUpdateOperation_undo,
      FileDeleteOperation_undo, try_catch, workspace_fs_delete,
      workspace_fs_writeFile;
    match goal with |- context [let (_, _) := ?c in _] =>
      by destruct c as [[[]|e] fs'] end.
Qed.

Lemma undo_popped_io w operation :
  undo_popped operation w
  = match reversal_io operation (w_fs w) with
    | (Ok _, fs') =>
        (Ok tt, show (Information "Operation undone successfully") (set_fs fs' w))
    | (Throw e, fs') =>
        (Ok tt,
         show (ErrorMessage ("Failed to undo operation: "
                             +:+ reversal_failure operation +:+ errorMessage e))
           (set_fs fs' w))
    end.
Proof.
  unfold undo_popped, try_catch, bind. rewrite FileOperation_undo_io.
  by destruct (reversal_io operation (w_fs w)) as [[[]|e] fs'].
Qed.

Lemma undo_popped_history w operation :
  ∃ w', undo_popped operation w = (Ok tt, w') ∧ w_history w' = w_history w.
Proof.
  rewrite undo_popped_io.
  destruct (reversal_io operation (w_fs w)) as [[[]|e] fs']; eauto.
Qed.

(** A call of [undo] that went through has made the storage call of the
    last entry, and that call returned. *)
Lemma undo_undone w base operation w2 :
  _operations (w_history w) = base ++ [operation] →
  undo w = (Ok tt, w2) → undone w2 →
  reversal_io operation (w_fs w) = (Ok tt, w_fs w2).
Proof.
  intros Hops. rewrite (undo_nonempty _ _ _ Hops), undo_popped_io. simpl.
  destruct (reversal_io operation (w_fs w)) as [[[]|e] fs'].
  - by intros [= <-].
  - intros [= <-]. unfold undone. simpl. by rewrite last_snoc.
Qed.

(** The same for the entry that the mutation just recorded. *)
Lemma undo_recorded w operation w2 :
  undo (set_history (recordOperation operation (w_history w)) w) = (Ok tt, w2) →
  undone w2 →
  reversal_io operation (w_fs w) = (Ok tt, w_fs w2).
Proof.
  intros Hundo Hdone.
  destruct (recordOperation_last operation (w_history w)) as [Hnil|[base Hops]].
  - rewrite undo_empty in Hundo by done. injection Hundo as <-.
    unfold undone in Hdone. simpl in Hdone. by rewrite last_snoc in Hdone.
  - by apply (undo_undone _ base operation w2) in Hundo.
Qed.

(** C6. When the log is not empty and the storage call of its last entry
    throws, [undo] shows [Failed to undo operation:] followed by the cause,
    returns, and leaves the log without that entry, one entry shorter. The
    storage is the one that the single failed call left: nothing is tried
    again. *)
Theorem undo_failure_drops_entry w base operation e fs' :
  _operations (w_history w) = base ++ [operation] →
  reversal_io operation (w_fs w) = (Throw e, fs') →
  let w' :=
    show (ErrorMessage ("Failed to undo operation: "
                        +:+ reversal_failure operation +:+ errorMessage e))
      (set_fs fs' (set_history (popped (w_history w)) w)) in
  undo w = (Ok tt, w')
  ∧ _operations (w_history w') = base
  ∧ length (_operations (w_history w')) + 1 = length (_operations (w_history w)).
Proof.
  intros Hops Hio w'. subst w'. split_and!.
  - rewrite (undo_nonempty _ _ _ Hops), undo_popped_io. simpl. by rewrite Hio.
  - simpl. rewrite Hops. apply removelast_last.
  - simpl. rewrite Hops, removelast_last, length_app. done.
Qed.

(** What a call of [undo] on a popped entry leaves: the storage that the
    storage call of the entry left, one more message, the same log. *)
Lemma undo_popped_effect w operation w' :
  undo_popped operation w = (Ok tt, w') →
  w_fs w' = (reversal_io operation (w_fs w)).2
  ∧ w_window w'
    = w_window w ++ [undo_notice operation (reversal_io operation (w_fs w)).1]
  ∧ w_history w' = w_history w.
Proof.
  rewrite undo_popped_io.
  destruct (reversal_io operation (w_fs w)) as [[[]|e] fs'];
    by intros [= <-].
Qed.

(** C5. After [O1], [O2] and [O3] have been recorded in this order (in a
    log with room for three entries), three calls of [undo] in a row
    reverse [O3], then [O2], then [O1]: the first call makes the storage
    call of [O3] (the deletion of its path for a creation, the write of
    its captured bytes for an update or a deletion) on the storage as it
    is and shows how it ended, the second makes the storage call of [O2]
    on the storage the first left, the third that of [O1] on the storage
    the second left; each call takes its entry off the log, which is back
    in the end to what it held under the three. *)
Theorem undo_is_lifo w O1 O2 O3 :
  3 ≤ _maxHistorySize (w_history w) →
  let w3 := set_history (record_all [O1; O2; O3] (w_history w)) w in
  ∃ base wa wb wc,
    _operations (w_history w3) = base ++ [O1; O2; O3]
    ∧ undo w3 = (Ok tt, wa)
    ∧ undo_popped O3 (set_history (popped (w_history w3)) w3) = (Ok tt, wa)
    ∧ _operations (w_history wa) = base ++ [O1; O2]
    ∧ undo wa = (Ok tt, wb)
    ∧ undo_popped O2 (set_history (popped (w_history wa)) wa) = (Ok tt, wb)
    ∧ _operations (w_history wb) = base ++ [O1]
    ∧ undo wb = (Ok tt, wc)
    ∧ undo_popped O1 (set_history (popped (w_history wb)) wb) = (Ok tt, wc)
    ∧ _operations (w_history wc) = base
    ∧ w_fs wa = (reversal_io O3 (w_fs w)).2
    ∧ w_window wa
      = w_window w ++ [undo_notice O3 (reversal_io O3 (w_fs w)).1]
    ∧ w_fs wb = (reversal_io O2 (w_fs wa)).2
    ∧ w_window wb
      = w_window wa ++ [undo_notice O2 (reversal_io O2 (w_fs wa)).1]
    ∧ w_fs wc = (reversal_io O1 (w_fs wb)).2
    ∧ w_window wc
      = w_window wb ++ [undo_notice O1 (reversal_io O1 (w_fs wb)).1].
Proof.
  intros Hroom w3.
  set (h0 := w_history w) in *.
  destruct (recordOperation_keeps O1 h0 (_operations h0) []) as [b1 H1];
    [simpl; lia|by rewrite app_nil_r|].
  set (h1 := recordOperation O1 h0) in *.
  destruct (recordOperation_keeps O2 h1 b1 [O1]) as [b2 H2];
    [subst h1; rewrite recordOperation_max; simpl; lia|done|].
  set (h2 := recordOperation O2 h1) in *.
  destruct (recordOperation_keeps O3 h2 b2 [O1; O2]) as [base H3];
    [subst h2 h1; rewrite !recordOperation_max; simpl; lia|done|].
  assert (Hw3 : _operations (w_history w3) = (base ++ [O1; O2]) ++ [O3]).
  { rewrite <- app_assoc. exact H3. }
  destruct (undo_popped_history (set_history (popped (w_history w3)) w3) O3)
    as (wa & Ha & Hha).
  assert (Hwa : _operations (w_history wa) = (base ++ [O1]) ++ [O2]).
  { rewrite Hha. simpl popped. simpl. fold h0 h1 h2.
    rewrite H3. rewrite <- app_assoc. simpl.
    change [O1; O2; O3] with ([O1; O2] ++ [O3]).
    rewrite app_assoc, removelast_last. reflexivity. }
  destruct (undo_popped_history (set_history (popped (w_history wa)) wa) O2)
    as (wb & Hb & Hhb).
  assert (Hwb : _operations (w_history wb) = base ++ [O1]).
  { rewrite Hhb. simpl. rewrite Hwa. apply removelast_last. }
  destruct (undo_popped_history (set_history (popped (w_history wb)) wb) O1)
    as (wc & Hc & Hhc).
  destruct (undo_popped_effect _ _ _ Ha) as (Hfa & Hna & _).
  destruct (undo_popped_effect _ _ _ Hb) as (Hfb & Hnb & _).
  destruct (undo_popped_effect _ _ _ Hc) as (Hfc & Hnc & _).
  exists base, wa, wb, wc. split_and!.
  - exact H3.
  - by rewrite (undo_nonempty _ _ _ Hw3).
  - done.
  - by rewrite Hwa, <- app_assoc.
  - by rewrite (undo_nonempty _ _ _ Hwa).
  - done.
  - done.
  - by rewrite (undo_nonempty _ _ _ Hwb).
  - done.
  - rewrite Hhc. simpl. rewrite Hwb. apply removelast_last.
  - exact Hfa.
  - exact Hna.
  - exact Hfb.
  - exact Hnb.
  - exact Hfc.
  - exact Hnc.
Qed.

End Undo.

(** ** Undo inverts the mutation *)

Section Inverse.
Context {FS AI : Type} `{FileSystem FS} `{NodePath} `{Builtins}.
Context `{!FileSystemLaws FS}.
Implicit Types (w : World FS AI) (filePath content : string).

Lemma reversal_restores operation (fs fs' : FS) :
  reversal_io operation fs = (Ok tt, fs') →
  match operation with
  | FileCreateOperation p => ∃ e, fs_stat fs' p = Throw e
  | FileUpdateOperation p b | FileDeleteOperation p b => fs_readFile fs' p = Ok b
  end.
Proof.
  destruct operation as [p|p b|p b]; simpl.
  - apply stat_after_delete.
  - apply read_after_write.
  - apply read_after_write.
Qed.

(** C4. On a storage that keeps the laws, an [undo] that goes through
    inverts the last recorded operation: after undoing a creation the path
    is not there any more, after undoing an update or a deletion the path
    holds the bytes captured before the mutation. In particular
    [createFile], [updateFile] and [deleteFile] followed by such an [undo]
    leave the path absent, respectively with the content it had before. *)
Theorem undo_inverts_mutation :
  (∀ w base operation w2,
     _operations (w_history w) = base ++ [operation] →
     undo w = (Ok tt, w2) → undone w2 →
     match operation with
     | FileCreateOperation p => ∃ e, fs_stat (w_fs w2) p = Throw e
     | FileUpdateOperation p b | FileDeleteOperation p b =>
         fs_readFile (w_fs w2) p = Ok b
     end)
  ∧ (∀ w filePath content w1 w2,
       createFile filePath content w = (Ok tt, w1) →
       undo w1 = (Ok tt, w2) → undone w2 →
       ∃ e, fs_stat (w_fs w2) filePath = Throw e)
  ∧ (∀ w filePath content before w1 w2,
       fs_readFile (w_fs w) filePath = Ok before →
       updateFile filePath content w = (Ok tt, w1) →
       undo w1 = (Ok tt, w2) → undone w2 →
       fs_readFile (w_fs w2) filePath = Ok before)
  ∧ (∀ w filePath before w1 w2,
       fs_readFile (w_fs w) filePath = Ok before →
       deleteFile filePath w = (Ok tt, w1) →
       undo w1 = (Ok tt, w2) → undone w2 →
       fs_readFile (w_fs w2) filePath = Ok before).
Proof.
  split_and!.
  - intros w base operation w2 Hops Hundo Hdone.
    apply (reversal_restores operation (w_fs w)).
    by apply (undo_undone w base).
  - intros w filePath content w1 w2 Hcreate Hundo Hdone.
    destruct (createFile_inv _ _ _ _ Hcreate) as (w0 & fs1 & _ & _ & ->).
    apply (undo_recorded (set_fs fs1 w0)) in Hundo; [|done].
    by apply (reversal_restores (FileCreateOperation filePath)) in Hundo.
  - intros w filePath content before w1 w2 Hread Hupdate Hundo Hdone.
    destruct (updateFile_inv _ _ _ _ Hupdate) as (old & fs1 & Hold & _ & ->).
    rewrite Hread in Hold. injection Hold as <-.
    apply (undo_recorded (set_fs fs1 w)) in Hundo; [|done].
    by apply (reversal_restores (FileUpdateOperation filePath before)) in Hundo.
  - intros w filePath before w1 w2 Hread Hdelete Hundo Hdone.
    destruct (deleteFile_inv _ _ _ Hdelete) as (old & fs1 & Hold & _ & ->).
    rewrite Hread in Hold. injection Hold as <-.
    apply (undo_recorded (set_fs fs1 w)) in Hundo; [|done].
    by apply (reversal_restores (FileDeleteOperation filePath before)) in Hundo.
Qed.

End Inverse.

(** ** The planner *)

#[local] Arguments append !_ _ / : simpl nomatch.

Lemma strip_prefix_sound p s t : strip_prefix p s = Some t → s = p +:+ t.
Proof.
  revert s. induction p as [|a p IH]; intros s; simpl.
  - by intros [= ->].
  - destruct s as [|b s]; [done|].
    destruct (Ascii.eqb_spec a b) as [->|]; [|done].
    intros Hp. by rewrite (IH _ Hp).
Qed.

Lemma strip_prefix_complete p t : strip_prefix p (p +:+ t) = Some t.
Proof.
  induction p as [|a p IH]; simpl; [done|]. by rewrite Ascii.eqb_refl.
Qed.

Lemma lazy_until_sound close s g :
  lazy_until close s = Some g → ∃ c, s = g +:+ close +:+ c.
Proof.
  revert g. induction s as [|x s IH]; intros g; simpl.
  - destruct (strip_prefix close EmptyString) as [t|] eqn:Hp; [|done].
    intros [= <-]. exists t. simpl. exact (strip_prefix_sound _ _ _ Hp).
  - destruct (strip_prefix close (String x s)) as [t|] eqn:Hp.
    + intros [= <-]. exists t. simpl. exact (strip_prefix_sound _ _ _ Hp).
    + destruct (lazy_until close s) as [g'|]; [|done].
      intros [= <-]. destruct (IH g' eq_refl) as [c ->]. by exists c.
Qed.

Lemma lazy_until_here close s t :
  strip_prefix close s = Some t → lazy_until close s = Some EmptyString.
Proof. intros Hp. destruct s; simpl; by rewrite Hp. Qed.

Lemma lazy_until_complete close b c :
  is_Some (lazy_until close (b +:+ close +:+ c)).
Proof.
  induction b as [|x b IH]; simpl.
  - rewrite (lazy_until_here _ _ c); [by eauto|apply strip_prefix_complete].
  - destruct (strip_prefix close (String x (b +:+ close +:+ c))); [by eauto|].
    destruct IH as [g ->]. by eauto.
Qed.

Lemma search_sound {A} (at_head : string → option A) s r :
  search at_head s = Some r → ∃ a t, s = a +:+ t ∧ at_head t = Some r.
Proof.
  induction s as [|x s IH]; simpl.
  - destruct (at_head EmptyString) eqn:Hh; [|done].
    intros [= <-]. by exists EmptyString, EmptyString.
  - destruct (at_head (String x s)) eqn:Hh.
    + intros [= <-]. by exists EmptyString, (String x s).
    + intros Hs. destruct (IH Hs) as (a & t & -> & Ht).
      by exists (String x a), t.
Qed.

Lemma search_complete {A} (at_head : string → option A) a t :
  is_Some (at_head t) → is_Some (search at_head (a +:+ t)).
Proof.
  intros Ht. induction a as [|x a IH]; simpl.
  - destruct t; simpl; destruct Ht as [r ->]; eauto.
  - destruct (at_head (String x (a +:+ t))); [by eauto|done].
Qed.

(** [match_array] finds a group exactly when the text holds an opening
    bracket with a closing bracket somewhere after it. *)
Lemma match_array_Some s group1 :
  match_array s = Some group1 →
  ∃ a c, s = a +:+ "[" +:+ group1 +:+ "]" +:+ c.
Proof.
  intros Hm. apply search_sound in Hm as (a & t & -> & Ht).
  destruct (strip_prefix "[" t) as [u|] eqn:Hu; [|done]. simpl in Ht.
  apply strip_prefix_sound in Hu as ->.
  apply lazy_until_sound in Ht as [c ->]. by exists a, c.
Qed.

Lemma match_array_None s :
  match_array s = None ↔ ¬ ∃ a b c, s = a +:+ "[" +:+ b +:+ "]" +:+ c.
Proof.
  split.
  - intros Hnone (a & b & c & ->).
    assert (is_Some (match_array (a +:+ "[" +:+ b +:+ "]" +:+ c))) as [g Hg];
      [|congruence].
    apply search_complete.
    change ("[" +:+ b +:+ "]" +:+ c) with (String "[" (b +:+ "]" +:+ c)).
    simpl. apply (lazy_until_complete "]" b c).
  - intros Hno. destruct (match_array s) as [g|] eqn:Hm; [|done].
    destruct Hno. apply match_array_Some in Hm as (a & c & ->). eauto.
Qed.

Lemma Qle_bool_false x y : Qle_bool x y = false ↔ (y < x)%Q.
Proof.
  split.
  - intros Hf. apply Qnot_le_lt. intros Hle.
    apply Qle_bool_iff in Hle. congruence.
  - intros Hlt. destruct (Qle_bool x y) eqn:Hb; [|done].
    apply Qle_bool_iff in Hb. by apply Qlt_not_le in Hlt.
Qed.

Section Planner.
Context {FS AI ProjectAnalysis : Type}.
Context `{FileSystem FS} `{NodePath} `{Completions AI} `{Builtins}.
Context `{PlanParsers} `{Prompts ProjectAnalysis}.
Context `{ProjectAnalyzer FS ProjectAnalysis}.
Implicit Types (w : World FS AI) (description framework : string).

(** C1 (amended). The planner takes the single request exactly when the
    estimate [length / 4 + 1000] is at most 2000, and the chunked strategy
    exactly when the estimate is above 2000, that is for descriptions of
    more than 4000 characters; an estimate equal to 2000 takes the single
    request. Above 2000 [_generateProjectStructure] is
    [_generateLargerProject]. *)
Theorem strategy_by_estimate description :
  (chooseStrategy description = Flat ↔ (estimatedTokens description <= 2000)%Q)
  ∧ (chooseStrategy description = Chunked ↔ (2000 < estimatedTokens description)%Q)
  ∧ (chooseStrategy description = Chunked ↔ 4000 < String.length description)
  ∧ (∀ framework,
       (2000 < estimatedTokens description)%Q →
       _generateProjectStructure (FS:=FS) (AI:=AI) description framework
       = _generateLargerProject description framework).
Proof.
  assert (Hc : chooseStrategy description = Chunked
               ↔ (2000 < estimatedTokens description)%Q).
  { unfold chooseStrategy. rewrite <- Qle_bool_false.
    by destruct (Qle_bool (estimatedTokens description) 2000). }
  split_and!.
  - unfold chooseStrategy. rewrite <- Qle_bool_iff.
    by destruct (Qle_bool (estimatedTokens description) 2000).
  - exact Hc.
  - rewrite Hc. unfold estimatedTokens, Qlt, Qplus. simpl. lia.
  - intros framework Hbig. apply Hc in Hbig.
    unfold _generateProjectStructure. by rewrite Hbig.
Qed.

Lemma generate_one_spec w description framework filePath generated :
  generate_one description framework filePath generated w
  = let (r, w') := _callAI (filePrompt filePath description framework) 2048 w in
    (Ok (generated ++ [plan_entry filePath r]), w').
Proof.
  unfold generate_one, try_catch, bind.
  by destruct (_callAI (filePrompt filePath description framework) 2048 w)
    as [[fileContent|error] w'].
Qed.

Lemma content_loop w description framework filePaths generated :
  ∃ w',
    for_of filePaths (generate_one description framework) generated w
    = (Ok (generated
           ++ zip_with plan_entry filePaths
                (content_requests description framework filePaths w)), w').
Proof.
  revert w generated. induction filePaths as [|filePath rest IH];
    intros w generated; simpl.
  - exists w. by rewrite app_nil_r.
  - unfold bind. rewrite generate_one_spec.
    destruct (_callAI (filePrompt filePath description framework) 2048 w)
      as [r w1].
    destruct (IH w1 (generated ++ [plan_entry filePath r])) as [w' ->].
    exists w'. by rewrite <- app_assoc.
Qed.

Lemma content_requests_length w description framework filePaths :
  length (content_requests description framework filePaths w) = length filePaths.
Proof.
  revert w. induction filePaths as [|filePath rest IH]; intros w; simpl; [done|].
  destruct (_callAI (filePrompt filePath description framework) 2048 w)
    as [r w1]. simpl. by rewrite IH.
Qed.

Lemma plan_entry_path filePath r : path (plan_entry filePath r) = filePath.
Proof. by destruct r. Qed.

Lemma plan_entry_paths (filePaths : list string) (rs : list (outcome string)) :
  length rs = length filePaths → path <$> zip_with plan_entry filePaths rs = filePaths.
Proof.
  revert rs. induction filePaths as [|p ps IH]; intros [|r rs]; simpl; try done.
  intros [= Hlen]. rewrite plan_entry_path. f_equal. by apply IH.
Qed.

(** C8. When the structure request has given [n] paths, the content phase
    never aborts: the plan has [n] entries, with the paths in the order
    given. The entry of a path whose request threw holds
    [// Failed to generate content for this file:] followed by the error;
    the entry of a path whose request returned holds the code taken out of
    the answer. *)
Theorem content_phase_tolerates_failures w description framework
    structureResponse w1 group1 filePaths :
  _callAI (structurePrompt description framework) 2048 w
  = (Ok structureResponse, w1) →
  match_array structureResponse = Some group1 →
  JSON_parse_paths ("[" +:+ group1 +:+ "]") = Some filePaths →
  let requests := content_requests description framework filePaths w1 in
  ∃ generated w2,
    _generateLargerProject description framework w
    = (Ok {| files := generated |}, w2)
    ∧ length generated = length filePaths
    ∧ path <$> generated = filePaths
    ∧ length requests = length filePaths
    ∧ (∀ k filePath error,
         filePaths !! k = Some filePath → requests !! k = Some (Throw error) →
         generated !! k
         = Some {| path := filePath; content := failed_content error |})
    ∧ (∀ k filePath fileContent,
         filePaths !! k = Some filePath → requests !! k = Some (Ok fileContent) →
         generated !! k
         = Some {| path := filePath; content := extract_code fileContent |}).
Proof.
  intros Hcall Hmatch Hparse requests.
  destruct (content_loop w1 description framework filePaths []) as [w2 Hloop].
  fold requests in Hloop. simpl in Hloop.
  pose proof (content_requests_length w1 description framework filePaths) as Hlen.
  fold requests in Hlen.
  exists (zip_with plan_entry filePaths requests), w2. split_and!.
  - unfold _generateLargerProject, bind, try_catch.
    rewrite Hcall, Hmatch. unfold JSON_parse. rewrite Hparse. simpl.
    unfold bind. by rewrite Hloop.
  - rewrite length_zip_with. lia.
  - by apply plan_entry_paths.
  - done.
  - intros k filePath error Hk Hr.
    rewrite lookup_zip_with, Hk. simpl. by rewrite Hr.
  - intros k filePath fileContent Hk Hr.
    rewrite lookup_zip_with, Hk. simpl. by rewrite Hr.
Qed.

(** C7 (amended). In the structure phase, when the part between brackets
    of the answer is not JSON, the planner throws
    [Failed to generate project structure]. When the answer holds no
    opening bracket with a closing bracket after it, the planner does not
    throw: it makes no content request and returns a plan without files. *)
Theorem structure_phase_outcomes w description framework structureResponse w1 :
  _callAI (structurePrompt description framework) 2048 w
  = (Ok structureResponse, w1) →
  (∀ group1,
     match_array structureResponse = Some group1 →
     JSON_parse_paths ("[" +:+ group1 +:+ "]") = None →
     _generateLargerProject description framework w
     = (Throw (new_Error "Failed to generate project structure"), w1))
  ∧ ((¬ ∃ a b c, structureResponse = a +:+ "[" +:+ b +:+ "]" +:+ c) →
     _generateLargerProject description framework w
     = (Ok {| files := [] |}, w1)).
Proof.
  intros Hcall. split.
  - intros group1 Hmatch Hparse.
    unfold _generateLargerProject, bind, try_catch.
    rewrite Hcall, Hmatch. unfold JSON_parse. by rewrite Hparse.
  - intros Hnone. apply match_array_None in Hnone.
    unfold _generateLargerProject, bind, try_catch.
    by rewrite Hcall, Hnone.
Qed.

(** C9 (amended). An entry of the update plan goes to [createFile],
    [updateFile] or [deleteFile] by its action. For a creation or an update
    the content passed is the content of the entry, or the empty string
    when the entry has none: nothing is checked, and an entry without
    content is applied like the same entry with the empty content. *)
Theorem update_entry_dispatch w projectPath file updatedFiles :
  let filePath := path_join projectPath (entry_path file) in
  let content := or_string (entry_content file) EmptyString in
  let dispatched : M FS AI unit :=
    match entry_action file with
    | ActionCreate => createFile filePath content
    | ActionUpdate => updateFile filePath content
    | ActionDelete => deleteFile filePath
    end in
  apply_one projectPath file updatedFiles w
  = match dispatched w with
    | (Ok _, w') => (Ok (updatedFiles ++ [filePath]), w')
    | (Throw e, w') => (Throw e, w')
    end
  ∧ (entry_content file = None → content = EmptyString)
  ∧ apply_one projectPath file updatedFiles w
    = apply_one projectPath
        {| entry_path := entry_path file; entry_action := entry_action file;
           entry_content := Some content |} updatedFiles w.
Proof.
  intros filePath content dispatched. split_and!.
  - unfold apply_one, bind. fold filePath content dispatched.
    by destruct (dispatched w) as [[[]|e] w'].
  - subst content. by intros ->.
  - unfold apply_one. simpl. subst content.
    destruct (entry_content file) as [s|]; simpl; [|done].
    by destruct s.
Qed.

End Planner.

(** ** The statements on concrete inputs *)

(** A description of 5000 characters goes to the chunked strategy, one of
    3000 characters to the single request. *)
Lemma strategy_by_estimate_witness :
  chooseStrategy (description_of 5000) = Chunked
  ∧ chooseStrategy (description_of 3000) = Flat.
Proof.
  split.
  - destruct (strategy_by_estimate (FS:=node) (AI:=Script) (H3:=no_plan)
                (description_of 5000)) as (_ & _ & Hlen & _).
    apply Hlen. vm_compute. lia.
  - destruct (strategy_by_estimate (FS:=node) (AI:=Script) (H3:=no_plan)
                (description_of 3000)) as (Hflat & _).
    apply Hflat. vm_compute. discriminate.
Defined.

(** A description of 4000 characters has the estimate 2000, which is not
    below 2000, and gets the single request. *)
Lemma strategy_at_threshold :
  (estimatedTokens (description_of 4000) == 2000)%Q
  ∧ ¬ (estimatedTokens (description_of 4000) < 2000)%Q
  ∧ chooseStrategy (description_of 4000) = Flat
  ∧ chooseStrategy (description_of 4000) ≠ Chunked.
Proof.
  split_and!.
  - vm_compute. reflexivity.
  - vm_compute. discriminate.
  - vm_compute. reflexivity.
  - vm_compute. discriminate.
Qed.

Lemma createFile_existing_witness :
  createFile "proj/a.txt" "bye" (world_of sample_fs [])
  = (Throw (new_Error "Failed to create file: File already exists: proj/a.txt"),
     world_of sample_fs []).
Proof.
  apply (createFile_existing (world_of sample_fs []) "proj/a.txt" "bye").
  vm_compute. reflexivity.
Defined.

(** After a hundred and one records the log holds the last hundred. *)
Lemma operation_log_bounded_witness :
  length (_operations (record_all sample_operations new_HistoryManager)) = 100
  ∧ _operations (record_all sample_operations new_HistoryManager)
    = drop 1 sample_operations.
Proof.
  destruct (operation_log_bounded new_HistoryManager sample_operations)
    as (_ & _ & _ & Hmore); [simpl; lia|].
  apply Hmore. vm_compute. lia.
Defined.

(** Creating, updating and deleting in the sample project, each followed
    by an undo. *)
Lemma undo_inverts_mutation_witness :
  let w := world_of sample_fs [] in
  (∃ e, fs_stat (w_fs (undo (createFile "proj/new.txt" "n" w).2).2)
          "proj/new.txt" = Throw e)
  ∧ fs_readFile (w_fs (undo (updateFile "proj/a.txt" "bye" w).2).2) "proj/a.txt"
    = Ok (list_byte_of_string "hello")
  ∧ fs_readFile (w_fs (undo (deleteFile "proj/a.txt" w).2).2) "proj/a.txt"
    = Ok (list_byte_of_string "hello").
Proof.
  intros w.
  destruct (undo_inverts_mutation (FS:=node) (AI:=Script))
    as (_ & Hcreate & Hupdate & Hdelete).
  split_and!.
  - apply (Hcreate w "proj/new.txt" "n" (createFile "proj/new.txt" "n" w).2);
      vm_compute; reflexivity.
  - apply (Hupdate w "proj/a.txt" "bye" _ (updateFile "proj/a.txt" "bye" w).2);
      vm_compute; reflexivity.
  - apply (Hdelete w "proj/a.txt" _ (deleteFile "proj/a.txt" w).2);
      vm_compute; reflexivity.
Defined.

(** Three updates of [proj/a.txt] are in the log, with the contents [v1],
    [v2] and [v3] that each of them found. The first undo puts [v3] back,
    the second [v2], the third [v1]. *)
Lemma undo_is_lifo_witness :
  let O1 := FileUpdateOperation "proj/a.txt" (list_byte_of_string "v1") in
  let O2 := FileUpdateOperation "proj/a.txt" (list_byte_of_string "v2") in
  let O3 := FileUpdateOperation "proj/a.txt" (list_byte_of_string "v3") in
  let w3 := set_history (record_all [O1; O2; O3] new_HistoryManager)
              (world_of sample_fs []) in
  ∃ wa wb wc,
    undo w3 = (Ok tt, wa)
    ∧ undo_popped O3 (set_history (popped (w_history w3)) w3) = (Ok tt, wa)
    ∧ undo wa = (Ok tt, wb)
    ∧ undo_popped O2 (set_history (popped (w_history wa)) wa) = (Ok tt, wb)
    ∧ undo wb = (Ok tt, wc)
    ∧ undo_popped O1 (set_history (popped (w_history wb)) wb) = (Ok tt, wc)
    ∧ fs_readFile (w_fs wa) "proj/a.txt" = Ok (list_byte_of_string "v3")
    ∧ fs_readFile (w_fs wb) "proj/a.txt" = Ok (list_byte_of_string "v2")
    ∧ fs_readFile (w_fs wc) "proj/a.txt" = Ok (list_byte_of_string "v1")
    ∧ w_window wc
      = [Information "Operation undone successfully";
         Information "Operation undone successfully";
         Information "Operation undone successfully"]
    ∧ _operations (w_history wc) = [].
Proof.
  intros O1 O2 O3 w3.
  destruct (undo_is_lifo (world_of sample_fs []) O1 O2 O3)
    as (base & wa & wb & wc & Hbase & H3 & H3' & _ & H2 & H2' & _ & H1 & H1'
        & Hlog & Hfa & Hna & Hfb & Hnb & Hfc & Hnc);
    [simpl; lia|].
  exists wa, wb, wc. split_and!; try done.
  - rewrite Hfa. vm_compute. reflexivity.
  - rewrite Hfb, Hfa. vm_compute. reflexivity.
  - rewrite Hfc, Hfb, Hfa. vm_compute. reflexivity.
  - rewrite Hnc, Hnb, Hna, Hfb, Hfa. vm_compute. reflexivity.
  - rewrite Hlog. assert (length (base ++ [O1; O2; O3]) = 3) as Hlen.
    { rewrite <- Hbase. vm_compute. reflexivity. }
    rewrite length_app in Hlen. simpl in Hlen.
    destruct base; [done|simpl in Hlen; lia].
Defined.

(** The file of the last entry is gone: the deletion that would undo its
    creation throws, the failure is shown and the entry is dropped. *)
Lemma undo_failure_drops_entry_witness :
  undo world_with_stale_entry
  = (Ok tt,
     show (ErrorMessage
             "Failed to undo operation: Failed to undo file creation: proj/gone.txt")
       (world_of sample_fs [])).
Proof.
  destruct (undo_failure_drops_entry world_with_stale_entry []
              (FileCreateOperation "proj/gone.txt")
              (Unavailable "proj/gone.txt") sample_fs) as (Hundo & _).
  - reflexivity.
  - vm_compute. reflexivity.
  - exact Hundo.
Defined.

(** A bracketed part that is not JSON makes the planner throw. *)
Lemma structure_phase_outcomes_witness :
  _generateLargerProject (ProjectAnalysis:=unit) "a todo list" "react"
    (world_of sample_fs [Ok (Some "The files: [index.js, app.js]")])
  = (Throw (new_Error "Failed to generate project structure"),
     world_of sample_fs []).
Proof.
  destruct (structure_phase_outcomes (ProjectAnalysis:=unit)
              (world_of sample_fs [Ok (Some "The files: [index.js, app.js]")])
              "a todo list" "react" "The files: [index.js, app.js]"
              (world_of sample_fs [])) as (Hparse & _).
  - vm_compute. reflexivity.
  - apply (Hparse "index.js, app.js"); vm_compute; reflexivity.
Defined.

(** An answer without brackets: the planner returns a plan without files. *)
Lemma structure_phase_without_array :
  (¬ ∃ a b c, "I could not think of any file." = a +:+ "[" +:+ b +:+ "]" +:+ c)
  ∧ _generateLargerProject (ProjectAnalysis:=unit) "a todo list" "react"
      (world_of sample_fs [Ok (Some "I could not think of any file.")])
    = (Ok {| files := [] |}, world_of sample_fs []).
Proof.
  split.
  - apply match_array_None. vm_compute. reflexivity.
  - vm_compute. reflexivity.
Qed.

(** Three paths, the second request fails: three entries, the second one
    holds the error. *)
Lemma content_phase_tolerates_failures_witness :
  ∃ generated w2,
    _generateLargerProject (ProjectAnalysis:=unit) "a todo list" "react"
      (world_of sample_fs three_files_script)
    = (Ok {| files := generated |}, w2)
    ∧ length generated = 3
    ∧ path <$> generated = ["a.js"; "b.js"; "c.js"]
    ∧ generated !! 1
      = Some {| path := "b.js";
                content := "// Failed to generate content for this file: "
                           +:+ "Error: Error calling AI API: 429 Rate limit reached" |}
    ∧ generated !! 0 = Some {| path := "a.js"; content := "let a;" |}
    ∧ generated !! 2 = Some {| path := "c.js"; content := "let c;" |}.
Proof.
  destruct (content_phase_tolerates_failures (ProjectAnalysis:=unit)
              (world_of sample_fs three_files_script)
              "a todo list" "react"
              ("Here you go: [" +:+ quoted "a.js" +:+ ", " +:+ quoted "b.js"
               +:+ ", " +:+ quoted "c.js" +:+ "]")
              (world_of sample_fs (tail three_files_script))
              (quoted "a.js" +:+ ", " +:+ quoted "b.js" +:+ ", " +:+ quoted "c.js")
              ["a.js"; "b.js"; "c.js"])
    as (generated & w2 & Hrun & Hlen & Hpaths & _ & Hfail & Hok);
    [vm_compute; reflexivity..|].
  exists generated, w2. split_and!; [done..| | |].
  - apply (Hfail 1 "b.js"
             (new_Error "Error calling AI API: 429 Rate limit reached"));
      vm_compute; reflexivity.
  - apply (Hok 0 "a.js" (FENCE +:+ "js" +:+ LF +:+ "let a;" +:+ LF +:+ FENCE));
      vm_compute; reflexivity.
  - apply (Hok 2 "c.js" "let c;"); vm_compute; reflexivity.
Defined.

(** An entry without content asks for the same call as one with the empty
    content. *)
Lemma update_entry_dispatch_witness :
  apply_one "proj" entry_without_content [] (world_of sample_fs [])
  = apply_one "proj"
      {| entry_path := "b.txt"; entry_action := ActionCreate;
         entry_content := Some EmptyString |} [] (world_of sample_fs []).
Proof.
  destruct (update_entry_dispatch (world_of sample_fs []) "proj"
              entry_without_content []) as (_ & _ & Hsame).
  exact Hsame.
Defined.

(** The entry without content is applied: the loop goes on to the end, the
    file is there, empty, and its creation is in the log. *)
Lemma entry_without_content_is_applied :
  let run := for_of [entry_without_content] (apply_one "proj") []
               (world_of sample_fs []) in
  run.1 = Ok ["proj/b.txt"]
  ∧ fs_readFile (w_fs run.2) "proj/b.txt" = Ok []
  ∧ _operations (w_history run.2) = [FileCreateOperation "proj/b.txt"].
Proof. vm_compute. done. Qed.

(** A path that is not in the storage: [stat] throws, and update reports
    that the file does not exist. *)
Lemma stat_failure_reads_as_absence_witness :
  updateFile "proj/missing.txt" "x" (world_of sample_fs [])
  = (Throw (new_Error
       "Failed to update file: File does not exist: proj/missing.txt"),
     world_of sample_fs []).
Proof.
  destruct (stat_failure_reads_as_absence (world_of sample_fs [])
              "proj/missing.txt" "x" (FileNotFound "proj/missing.txt"))
    as (_ & _ & Hupdate & _).
  - vm_compute. reflexivity.
  - exact Hupdate.
Defined.

(** * Further properties *)

(** ** The in-memory storage keeps the further laws *)

Lemma mkdirp_walk n segs n' :
  mkdirp n segs = Some n' → is_Some (walk n' segs).
Proof.
  revert n n'. induction segs as [|name rest IH]; intros n n'; simpl.
  - by eauto.
  - destruct n as [|entries]; [done|].
    destruct (mkdirp (default (Dir ∅) (entries !! name)) rest)
      as [child'|] eqn:Hm; [|done].
    simpl. intros [= <-]. simpl. rewrite lookup_insert_eq. simpl. eauto.
Qed.

#[global] Instance MemFs_storage_laws : StorageLaws node.
Proof.
  split.
  - intros fs p b fs'. simpl.
    destruct (write fs (segments p) b) as [n'|] eqn:Hw; [|done].
    intros [= <-]. by rewrite (write_walk _ _ _ _ Hw).
  - intros fs p fs'. simpl.
    destruct (mkdirp fs (segments p)) as [n'|] eqn:Hm; [|done].
    intros [= <-]. by destruct (mkdirp_walk _ _ _ Hm) as [x ->].
Qed.

(** ** The file system service, further *)

Lemma length_removelast_pred {A} (l : list A) :
  length (removelast l) = length l - 1.
Proof.
  induction l as [|x l IH] using rev_ind; [done|].
  rewrite removelast_last, length_app. simpl. lia.
Qed.

Ltac step_io :=
  match goal with
  | |- context [fs_stat ?fs ?p] =>
      destruct (fs_stat fs p) as [[]|?] eqn:?
  | |- context [fs_readFile ?fs ?p] =>
      destruct (fs_readFile fs p) as [?|?] eqn:?
  | |- context [fs_writeFile ?fs ?p ?b] =>
      destruct (fs_writeFile fs p b) as [[[]|?] ?] eqn:?
  | |- context [fs_delete ?fs ?p ?r] =>
      destruct (fs_delete fs p r) as [[[]|?] ?] eqn:?
  | |- context [fs_createDirectory ?fs ?p] =>
      destruct (fs_createDirectory fs p) as [[[]|?] ?] eqn:?
  end; simpl.

Ltac run_io :=
  unfold createFile, updateFile, deleteFile, ensureDirectory, fileExists,
    try_catch, bind, ret, throw, workspace_fs_stat, workspace_fs_readFile,
    workspace_fs_writeFile, workspace_fs_delete, workspace_fs_createDirectory,
    historyManager_recordOperation;
  simpl; repeat step_io.

Section MutatorMore.
Context {FS AI : Type} `{FileSystem FS} `{NodePath} `{Builtins}.
Implicit Types (w : World FS AI) (filePath content : string).

Lemma createFile_history w filePath content r w' :
  createFile filePath content w = (r, w') →
  w_history w'
  = match r with
    | Ok _ => recordOperation (FileCreateOperation filePath) (w_history w)
    | Throw _ => w_history w
    end.
Proof. run_io; intros [= <- <-]; simpl; eauto. Qed.

Lemma updateFile_history w filePath content r w' :
  updateFile filePath content w = (r, w') →
  match r with
  | Ok _ =>
      ∃ existingContent,
        fs_readFile (w_fs w) filePath = Ok existingContent
        ∧ w_history w'
          = recordOperation (FileUpdateOperation filePath existingContent)
              (w_history w)
  | Throw _ => w_history w' = w_history w
  end.
Proof. run_io; intros [= <- <-]; simpl; eauto. Qed.

Lemma deleteFile_history w filePath r w' :
  deleteFile filePath w = (r, w') →
  match r with
  | Ok _ =>
      ∃ existingContent,
        fs_readFile (w_fs w) filePath = Ok existingContent
        ∧ w_history w'
          = recordOperation (FileDeleteOperation filePath existingContent)
              (w_history w)
  | Throw _ => w_history w' = w_history w
  end.
Proof. run_io; intros [= <- <-]; simpl; eauto. Qed.

(** X3. A call of [createFile], [updateFile] or [deleteFile] that returns
    has put exactly one entry into the log, the one of its own mutation
    (for an update or a deletion, with the bytes read before it); a call
    that throws, wherever it throws, leaves the log as it was. *)
Theorem mutation_records_once w filePath content :
  (∀ r w', createFile filePath content w = (r, w') →
     w_history w'
     = match r with
       | Ok _ => recordOperation (FileCreateOperation filePath) (w_history w)
       | Throw _ => w_history w
       end)
  ∧ (∀ r w', updateFile filePath content w = (r, w') →
       match r with
       | Ok _ =>
           ∃ existingContent,
             fs_readFile (w_fs w) filePath = Ok existingContent
             ∧ w_history w'
               = recordOperation (FileUpdateOperation filePath existingContent)
                   (w_history w)
       | Throw _ => w_history w' = w_history w
       end)
  ∧ (∀ r w', deleteFile filePath w = (r, w') →
       match r with
       | Ok _ =>
           ∃ existingContent,
             fs_readFile (w_fs w) filePath = Ok existingContent
             ∧ w_history w'
               = recordOperation (FileDeleteOperation filePath existingContent)
                   (w_history w)
       | Throw _ => w_history w' = w_history w
       end).
Proof.
  split_and!; intros r w' Hrun.
  - exact (createFile_history _ _ _ _ _ Hrun).
  - exact (updateFile_history _ _ _ _ _ Hrun).
  - exact (deleteFile_history _ _ _ _ Hrun).
Qed.

(** X4. Whatever makes [createFile], [updateFile], [deleteFile] or
    [ensureDirectory] throw, what they throw is an [Error] whose message
    starts with the name of the failed operation. *)
Theorem mutation_errors_are_labelled w filePath content e w' :
  (createFile filePath content w = (Throw e, w') →
     ∃ cause, e = new_Error ("Failed to create file: " +:+ cause))
  ∧ (updateFile filePath content w = (Throw e, w') →
       ∃ cause, e = new_Error ("Failed to update file: " +:+ cause))
  ∧ (deleteFile filePath w = (Throw e, w') →
       ∃ cause, e = new_Error ("Failed to delete file: " +:+ cause))
  ∧ (ensureDirectory filePath w = (Throw e, w') →
       ∃ cause, e = new_Error ("Failed to create directory: " +:+ cause)).
Proof.
  split_and!; run_io; intros [= <- <-]; eauto.
Qed.

(** X5. When the path is there but its content cannot be read, [updateFile]
    and [deleteFile] throw with the cause of the read and change nothing:
    no write or deletion is made without the bytes to undo it. *)
Theorem no_mutation_without_snapshot w filePath content e :
  fs_stat (w_fs w) filePath = Ok tt →
  fs_readFile (w_fs w) filePath = Throw e →
  updateFile filePath content w
  = (Throw (new_Error ("Failed to update file: " +:+ errorMessage e)), w)
  ∧ deleteFile filePath w
    = (Throw (new_Error ("Failed to delete file: " +:+ errorMessage e)), w).
Proof.
  intros Hstat Hread. split; run_io; congruence.
Qed.


Lemma within_capacity_record operation h :
  within_capacity h → within_capacity (recordOperation operation h).
Proof.
  unfold within_capacity. intros Hin. rewrite recordOperation_max.
  by apply recordOperation_length.
Qed.

Lemma undo_shape w :
  ∃ notice fs',
    undo w
    = (Ok tt, show notice (set_fs fs' (set_history (popped (w_history w)) w)))
    ∧ (_operations (w_history w) = [] →
       notice = Information "Nothing to undo" ∧ fs' = w_fs w).
Proof.
  destruct (_operations (w_history w)) as [|operation base _] eqn:Hops
    using rev_ind.
  - exists (Information "Nothing to undo"), (w_fs w). split; [|done].
    rewrite undo_empty by done. f_equal.
    destruct w as [fs [ops N] ai openai config window]. simpl in *.
    by subst ops.
  - rewrite (undo_nonempty _ _ _ Hops), undo_popped_io. simpl.
    destruct (reversal_io operation (w_fs w)) as [[[]|e] fs'].
    + eexists _, fs'. split; [done|]. by destruct base.
    + eexists _, fs'. split; [done|]. by destruct base.
Qed.

Lemma undo_history w r w' :
  undo w = (r, w') → w_history w' = popped (w_history w).
Proof.
  destruct (undo_shape w) as (notice & fs' & -> & _). by intros [= <- <-].
Qed.

(** X1. [undo] never throws, whatever the storage does: it shows one
    message, takes the last entry (if any) off the log and leaves the
    capacity, the completion service and the settings alone. On an empty
    log the message is [Nothing to undo] and the storage is not touched. *)
Theorem undo_always_returns w :
  ∃ notice fs',
    undo w
    = (Ok tt, show notice (set_fs fs' (set_history (popped (w_history w)) w)))
    ∧ (_operations (w_history w) = [] →
       notice = Information "Nothing to undo" ∧ fs' = w_fs w).
Proof.
  destruct (_operations (w_history w)) as [|operation base _] eqn:Hops
    using rev_ind.
  - exists (Information "Nothing to undo"), (w_fs w). split; [|done].
    rewrite undo_empty by done. f_equal.
    destruct w as [fs [ops N] ai openai config window]. simpl in *.
    by subst ops.
  - rewrite (undo_nonempty _ _ _ Hops), undo_popped_io. simpl.
    destruct (reversal_io operation (w_fs w)) as [[[]|e] fs'].
    + eexists _, fs'. split; [done|]. by destruct base.
    + eexists _, fs'. split; [done|]. by destruct base.
Qed.

(** X2. Starting within the capacity of the log, every call of
    [createFile], [updateFile], [deleteFile] or [undo], returning or
    throwing, leaves the log within its capacity. *)
Theorem log_stays_within_capacity w filePath content :
  within_capacity (w_history w) →
  within_capacity (w_history (createFile filePath content w).2)
  ∧ within_capacity (w_history (updateFile filePath content w).2)
  ∧ within_capacity (w_history (deleteFile filePath w).2)
  ∧ within_capacity (w_history (undo w).2).
Proof.
  intros Hin. split_and!.
  - destruct (createFile filePath content w) as [r w'] eqn:Hrun.
    apply createFile_history in Hrun. simpl. rewrite Hrun.
    destruct r; [by apply within_capacity_record|done].
  - destruct (updateFile filePath content w) as [r w'] eqn:Hrun.
    apply updateFile_history in Hrun. simpl.
    destruct r as [[]|e]; [|by rewrite Hrun].
    destruct Hrun as (old & _ & ->). by apply within_capacity_record.
  - destruct (deleteFile filePath w) as [r w'] eqn:Hrun.
    apply deleteFile_history in Hrun. simpl.
    destruct r as [[]|e]; [|by rewrite Hrun].
    destruct Hrun as (old & _ & ->). by apply within_capacity_record.
  - destruct (undo_shape w) as (notice & fs' & -> & _). simpl.
    unfold within_capacity in *. simpl. rewrite length_removelast_pred. lia.
Qed.

Lemma popped_record operation h :
  (length (_operations h) < _maxHistorySize h →
   _operations (popped (recordOperation operation h)) = _operations h)
  ∧ (length (_operations h) = _maxHistorySize h → 0 < _maxHistorySize h →
     _operations (popped (recordOperation operation h)) = tail (_operations h)).
Proof.
  unfold popped, recordOperation. split.
  - intros Hroom. rewrite length_app. simpl.
    case_decide; [lia|]. simpl. apply removelast_last.
  - intros Hfull Hpos. rewrite length_app. simpl.
    case_decide; [|lia]. simpl.
    destruct (_operations h) as [|oldest rest]; simpl in *; [lia|].
    apply removelast_last.
Qed.

(** X8. A mutation that returned, followed by [undo], gives the log back as
    it was when the log had room. When the log was full, the record has
    pushed the oldest entry out, and the undo does not bring it back. *)
Theorem mutation_then_undo_log w filePath content w1 w2 :
  createFile filePath content w = (Ok tt, w1)
  ∨ updateFile filePath content w = (Ok tt, w1)
  ∨ deleteFile filePath w = (Ok tt, w1) →
  undo w1 = (Ok tt, w2) →
  let h := w_history w in
  (length (_operations h) < _maxHistorySize h →
   _operations (w_history w2) = _operations h)
  ∧ (length (_operations h) = _maxHistorySize h → 0 < _maxHistorySize h →
     _operations (w_history w2) = tail (_operations h)).
Proof.
  intros Hmut Hundo h.
  assert (∃ operation, w_history w1 = recordOperation operation h)
    as [operation Hrec].
  { destruct Hmut as [Hrun|[Hrun|Hrun]].
    - apply createFile_history in Hrun. eauto.
    - apply updateFile_history in Hrun as (old & _ & ?). eauto.
    - apply deleteFile_history in Hrun as (old & _ & ?). eauto. }
  destruct (undo_shape w1) as (notice & fs' & Hshape & _).
  rewrite Hshape in Hundo. injection Hundo as <-. simpl.
  rewrite Hrec. apply popped_record.
Qed.

End MutatorMore.

Section MutatorLaws.
Context {FS AI : Type} `{FileSystem FS} `{NodePath} `{Builtins}.
Context `{!FileSystemLaws FS} `{!StorageLaws FS}.
Implicit Types (w : World FS AI) (filePath content : string).

(** X6. On a storage that keeps the laws, a second [createFile] on the path
    that a first one has just made throws [File already exists], changes
    nothing, and the file still holds the content of the first call. *)
Theorem createFile_twice w filePath content content' w1 :
  createFile filePath content w = (Ok tt, w1) →
  createFile filePath content' w1
  = (Throw (new_Error
       ("Failed to create file: File already exists: " +:+ filePath)), w1)
  ∧ fs_readFile (w_fs w1) filePath = Ok (Buffer_from content).
Proof.
  intros Hcreate.
  destruct (createFile_inv _ _ _ _ Hcreate) as (w0 & fs1 & _ & Hwrite & ->).
  simpl. split.
  - unfold createFile, try_catch, bind.
    pose proof (stat_after_write _ _ _ _ Hwrite) as Hstat.
    rewrite ensureDirectory_existing by (simpl; by apply stat_dirname).
    rewrite fileExists_stat. simpl. by rewrite Hstat.
  - by apply (read_after_write _ _ _ _ Hwrite).
Qed.

(** X9. [ensureDirectory] is idempotent on a storage that keeps the laws:
    once it has returned, a second call on the same path returns without
    touching anything. *)
Theorem ensureDirectory_idempotent w dirPath w1 :
  ensureDirectory dirPath w = (Ok tt, w1) →
  ensureDirectory dirPath w1 = (Ok tt, w1).
Proof.
  intros Hfirst. apply ensureDirectory_existing.
  revert Hfirst. unfold ensureDirectory, try_catch, workspace_fs_stat,
    workspace_fs_createDirectory, throw.
  destruct (fs_stat (w_fs w) dirPath) as [[]|e] eqn:Hstat.
  - by intros [= <-].
  - destruct (fs_createDirectory (w_fs w) dirPath) as [[[]|e'] fs'] eqn:Hmk;
      [|done].
    intros [= <-]. simpl. by apply (stat_after_createDirectory _ _ _ Hmk).
Qed.

(** X7. Two updates of a path followed by two undos that go through: the
    first undo brings back the content of the first update, the second the
    content from before both. *)
Theorem two_updates_two_undos w filePath content content' before w1 w2 w3 w4 :
  2 ≤ _maxHistorySize (w_history w) →
  fs_readFile (w_fs w) filePath = Ok before →
  updateFile filePath content w = (Ok tt, w1) →
  updateFile filePath content' w1 = (Ok tt, w2) →
  undo w2 = (Ok tt, w3) → undone w3 →
  undo w3 = (Ok tt, w4) → undone w4 →
  fs_readFile (w_fs w3) filePath = Ok (Buffer_from content)
  ∧ fs_readFile (w_fs w4) filePath = Ok before.
Proof.
  intros Hroom Hbefore Hup1 Hup2 Hundo1 Hdone1 Hundo2 Hdone2.
  destruct (updateFile_inv _ _ _ _ Hup1) as (old & fs1 & Hold & Hwrite1 & ->).
  rewrite Hbefore in Hold. injection Hold as <-.
  destruct (updateFile_inv _ _ _ _ Hup2) as (old' & fs2 & Hold' & Hwrite2 & ->).
  simpl in Hold', Hwrite2.
  rewrite (read_after_write _ _ _ _ Hwrite1) in Hold'. injection Hold' as <-.
  set (O1 := FileUpdateOperation filePath before) in *.
  set (O2 := FileUpdateOperation filePath (Buffer_from content)) in *.
  destruct (recordOperation_keeps O1 (w_history w) (_operations (w_history w)) [])
    as [b1 Hk1]; [simpl; lia|by rewrite app_nil_r|].
  destruct (recordOperation_keeps O2 (recordOperation O1 (w_history w)) b1 [O1])
    as [base Hk2]; [rewrite recordOperation_max; simpl; lia|done|].
  rewrite app_assoc in Hk2.
  pose proof (undo_history _ _ _ Hundo1) as Hh3. simpl in Hh3.
  apply (undo_undone _ (base ++ [O1]) O2) in Hundo1; [|done|done].
  simpl in Hundo1. split; [by apply (read_after_write _ _ _ _ Hundo1)|].
  assert (Hops3 : _operations (w_history w3) = base ++ [O1]).
  { rewrite Hh3. simpl. rewrite Hk2. apply removelast_last. }
  apply (undo_undone _ base O1) in Hundo2; [|done|done].
  simpl in Hundo2. by apply (read_after_write _ _ _ _ Hundo2).
Qed.

End MutatorLaws.

(** ** The regular expressions, further *)

#[local] Arguments Ascii.eqb : simpl never.

Lemma append_assoc_string (a b c : string) : (a +:+ b) +:+ c = a +:+ b +:+ c.
Proof. induction a as [|x a IH]; simpl; [done|]. by rewrite IH. Qed.

Lemma lazy_until_char_sound k s g :
  lazy_until (String k EmptyString) s = Some g →
  ∃ c, s = g +:+ String k c ∧ free_of k g = true.
Proof.
  revert g. induction s as [|x s IH]; intros g; simpl; [done|].
  destruct (Ascii.eqb_spec k x) as [->|Hne].
  - intros [= <-]. by exists s.
  - destruct (lazy_until (String k EmptyString) s) as [g'|]; [|done].
    intros [= <-]. destruct (IH g' eq_refl) as (c & -> & Hfree).
    exists c. split; [done|]. simpl. rewrite Hfree.
    destruct (Ascii.eqb_spec x k); [congruence|done].
Qed.

Lemma lazy_until_char_complete k g c :
  free_of k g = true → lazy_until (String k EmptyString) (g +:+ String k c) = Some g.
Proof.
  induction g as [|x g IH]; simpl.
  - intros _. by rewrite Ascii.eqb_refl.
  - intros [Hx Hg]%andb_prop. rewrite Ascii.eqb_sym.
    apply negb_true_iff in Hx. rewrite Hx. by rewrite IH.
Qed.

Lemma match_array_first s group1 :
  match_array s = Some group1 →
  ∃ a c, s = a +:+ "[" +:+ group1 +:+ "]" +:+ c
         ∧ free_of "[" a = true ∧ free_of "]" group1 = true.
Proof.
  unfold match_array. induction s as [|x s IH]; simpl; [done|].
  destruct (Ascii.eqb_spec "[" x) as [<-|Hne]; simpl.
  - destruct (lazy_until "]" s) as [g|] eqn:Hg.
    + intros [= <-]. apply lazy_until_char_sound in Hg as (c & -> & Hfree).
      by exists EmptyString, c.
    + intros Hs. destruct (IH Hs) as (a & c & -> & _ & _).
      destruct (lazy_until_complete "]" (a +:+ "[" +:+ group1) c) as [g Hg'].
      rewrite !append_assoc_string in Hg'. simpl in Hg, Hg'. congruence.
  - intros Hs. destruct (IH Hs) as (a & c & -> & Ha & Hg).
    exists (String x a), c. split_and!; [done| |done].
    simpl. rewrite Ha. destruct (Ascii.eqb_spec x "["); [congruence|done].
Qed.

Lemma match_array_found a group1 c :
  free_of "[" a = true → free_of "]" group1 = true →
  match_array (a +:+ "[" +:+ group1 +:+ "]" +:+ c) = Some group1.
Proof.
  intros Ha Hg. unfold match_array. induction a as [|x a IH]; simpl.
  - change ("[" +:+ group1 +:+ "]" +:+ c) with (String "[" (group1 +:+ String "]" c)).
    simpl. by rewrite (lazy_until_char_complete "]" group1 c Hg).
  - simpl in Ha. apply andb_prop in Ha as [Hx Ha].
    apply negb_true_iff in Hx. rewrite Ascii.eqb_sym, Hx. simpl. by apply IH.
Qed.

(** X13. The structure phase reads the text between the first opening
    bracket of the answer and the first closing bracket after it, and
    nothing else: brackets inside the array or further arrays in the
    answer are not looked at. *)
Theorem match_array_is_first_bracket_pair s group1 :
  match_array s = Some group1
  ↔ ∃ a c, s = a +:+ "[" +:+ group1 +:+ "]" +:+ c
           ∧ free_of "[" a = true ∧ free_of "]" group1 = true.
Proof.
  split.
  - apply match_array_first.
  - intros (a & c & -> & Ha & Hg). by apply match_array_found.
Qed.

Lemma lazy_until_fence inner post :
  free_of "`" inner = true →
  lazy_until (LF +:+ FENCE) (inner +:+ LF +:+ FENCE +:+ post) = Some inner.
Proof.
  induction inner as [|x inner IH]; intros Hfree.
  - destruct post; reflexivity.
  - simpl in Hfree. apply andb_prop in Hfree as [Hx Hfree].
    apply negb_true_iff in Hx.
    assert (strip_prefix (LF +:+ FENCE)
              (String x (inner +:+ LF +:+ FENCE +:+ post)) = None) as Hnone.
    { simpl. destruct (Ascii.eqb "010" x); [|done].
      destruct inner as [|y inner]; simpl; [done|].
      simpl in Hfree. apply andb_prop in Hfree as [Hy _].
      apply negb_true_iff in Hy. by rewrite Ascii.eqb_sym, Hy. }
    change (String x inner +:+ LF +:+ FENCE +:+ post)
      with (String x (inner +:+ LF +:+ FENCE +:+ post)).
    simpl lazy_until. simpl in Hnone. rewrite Hnone.
    simpl in IH. by rewrite IH.
Qed.

Lemma search_skips {A} (at_head : string → option A) pre t :
  (∀ x s, x ≠ "`"%char → at_head (String x s) = None) →
  free_of "`" pre = true →
  search at_head (pre +:+ t) = search at_head t.
Proof.
  intros Hhead. induction pre as [|x pre IH]; simpl; [done|].
  intros [Hx Hpre]%andb_prop. apply negb_true_iff in Hx.
  rewrite Hhead; [by apply IH|].
  intros ->. by rewrite Ascii.eqb_refl in Hx.
Qed.

Lemma search_here {A} (at_head : string → option A) t r :
  at_head t = Some r → search at_head t = Some r.
Proof. intros Ht. destruct t; simpl; by rewrite Ht. Qed.

Lemma search_nothing {A} (at_head : string → option A) s :
  (∀ x s, x ≠ "`"%char → at_head (String x s) = None) →
  at_head EmptyString = None →
  free_of "`" s = true → search at_head s = None.
Proof.
  intros Hhead Hnil. induction s as [|x s IH]; simpl; [by rewrite Hnil|].
  intros [Hx Hfree]%andb_prop. apply negb_true_iff in Hx.
  rewrite Hhead; [by apply IH|].
  intros ->. by rewrite Ascii.eqb_refl in Hx.
Qed.

Lemma skip_word_tag tag rest :
  all_word tag = true → skip_word (tag +:+ LF +:+ rest) = LF +:+ rest.
Proof.
  induction tag as [|x tag IH]; simpl; [done|].
  intros [Hx Htag]%andb_prop. rewrite Hx. by apply IH.
Qed.

Lemma json_fence_found pre inner post :
  free_of "`" pre = true → free_of "`" inner = true →
  match_json_fence
    (pre +:+ FENCE +:+ "json" +:+ LF +:+ inner +:+ LF +:+ FENCE +:+ post)
  = Some inner.
Proof.
  intros Hpre Hinner. unfold match_json_fence.
  rewrite search_skips; [|intros x s Hx; simpl|done].
  - apply search_here.
    change (FENCE +:+ "json" +:+ LF +:+ inner +:+ LF +:+ FENCE +:+ post)
      with ((FENCE +:+ "json" +:+ LF) +:+ inner +:+ LF +:+ FENCE +:+ post).
    rewrite strip_prefix_complete. cbn [mbind option_bind].
    by apply lazy_until_fence.
  - by destruct (Ascii.eqb_spec "`" x).
Qed.

Lemma code_fence_found pre tag inner post :
  free_of "`" pre = true → free_of "`" inner = true → all_word tag = true →
  match_code_fence
    (pre +:+ FENCE +:+ tag +:+ LF +:+ inner +:+ LF +:+ FENCE +:+ post)
  = Some inner.
Proof.
  intros Hpre Hinner Htag. unfold match_code_fence.
  rewrite search_skips; [|intros x s Hx; simpl|done].
  - apply search_here. rewrite strip_prefix_complete.
    cbn [mbind option_bind]. rewrite skip_word_tag by done.
    rewrite strip_prefix_complete. cbn [mbind option_bind].
    by apply lazy_until_fence.
  - by destruct (Ascii.eqb_spec "`" x).
Qed.

Lemma no_fence_without_backtick s :
  free_of "`" s = true →
  match_json_fence s = None ∧ match_plain_fence s = None
  ∧ match_code_fence s = None.
Proof.
  intros Hfree. split_and!; apply search_nothing; try done;
    intros x t Hx; simpl; by destruct (Ascii.eqb_spec "`" x).
Qed.

(** X12. An answer that wraps a text without backticks in a fenced block,
    after a preamble without backticks, gives that text, trimmed: for the
    JSON of a plan when the fence is tagged [json], for the code of a file
    whatever word tags the fence. An answer without any backtick is taken
    whole, trimmed. *)
Theorem fenced_text_is_extracted pre tag inner post :
  free_of "`" pre = true → free_of "`" inner = true →
  inner ≠ EmptyString → all_word tag = true →
  extract_json
    (pre +:+ FENCE +:+ "json" +:+ LF +:+ inner +:+ LF +:+ FENCE +:+ post)
  = trim inner
  ∧ extract_code
      (pre +:+ FENCE +:+ tag +:+ LF +:+ inner +:+ LF +:+ FENCE +:+ post)
    = trim inner
  ∧ extract_json pre = trim pre
  ∧ extract_code pre = trim pre.
Proof.
  intros Hpre Hinner Hne Htag.
  destruct (no_fence_without_backtick pre Hpre) as (Hj & Hp & Hc).
  split_and!.
  - unfold extract_json. rewrite json_fence_found by done.
    unfold unwrap_match. by destruct inner.
  - unfold extract_code. rewrite code_fence_found by done.
    unfold unwrap_match. by destruct inner.
  - unfold extract_json. rewrite Hj, Hp. unfold unwrap_match. by destruct pre.
  - unfold extract_code. rewrite Hc. unfold unwrap_match. by destruct pre.
Qed.

(** ** The planner and the use cases, further *)

Lemma for_of_app {FS AI A S : Type} (xs ys : list A)
    (body : A → S → M FS AI S) (s : S) (w : World FS AI) :
  for_of (xs ++ ys) body s w
  = match for_of xs body s w with
    | (Ok s', w') => for_of ys body s' w'
    | (Throw e, w') => (Throw e, w')
    end.
Proof.
  revert s w. induction xs as [|x xs IH]; intros s w; simpl; [done|].
  unfold bind. destruct (body x s w) as [[s'|e] w']; [apply IH|done].
Qed.

Section PlannerMore.
Context {FS AI ProjectAnalysis : Type}.
Context `{FileSystem FS} `{NodePath} `{Completions AI} `{Builtins}.
Context `{PlanParsers} `{Prompts ProjectAnalysis}.
Implicit Types (w : World FS AI) (description framework : string).

Lemma _callAI_frame w prompt maxTokens :
  ∃ ai', (_callAI prompt maxTokens w).2 = set_ai ai' w.
Proof.
  unfold _callAI, bind, try_catch, getConfiguration, this_openai,
    completions_create, throw, ret. simpl.
  destruct (w_openai w).
  - destruct (chat_completions_create (w_ai w) (request_model (w_config w))
                prompt maxTokens) as [[c|e] ai']; by exists ai'.
  - exists (w_ai w). by destruct w.
Qed.

Lemma request_json_frame {A} (parse : string → option A) w prompt notInitialized :
  ∃ ai', (request_json parse prompt notInitialized w).2 = set_ai ai' w.
Proof.
  unfold request_json, bind, try_catch, getConfiguration, this_openai,
    completions_create, JSON_parse, throw, ret. simpl.
  destruct (w_openai w).
  - destruct (chat_completions_create (w_ai w) (request_model (w_config w))
                prompt (request_maxTokens (w_config w))) as [[[c|]|e] ai'];
      simpl; try by exists ai'.
    destruct (truthy c); [|by exists ai'].
    destruct (parse (extract_json c)); by exists ai'.
  - exists (w_ai w). by destruct w.
Qed.

Lemma content_loop_frame w description framework filePaths generated :
  ∃ ai',
    (for_of filePaths (generate_one description framework) generated w).2
    = set_ai ai' w.
Proof.
  revert w generated. induction filePaths as [|filePath rest IH];
    intros w generated; simpl.
  - exists (w_ai w). by destruct w.
  - unfold bind. rewrite generate_one_spec.
    destruct (_callAI_frame w (filePrompt filePath description framework) 2048)
      as [ai1 Hcall].
    destruct (_callAI (filePrompt filePath description framework) 2048 w)
      as [r w1]. simpl in Hcall. subst w1.
    destruct (IH (set_ai ai1 w) (generated ++ [plan_entry filePath r]))
      as [ai2 Hrest].
    exists ai2. by rewrite Hrest.
Qed.

(** X15. Planning never touches the storage, the log or the window:
    whichever strategy [_generateProjectStructure] takes and however it
    ends, the world it leaves differs from the one it started in by the
    state of the completion service only. *)
Theorem planning_touches_only_the_service w description framework :
  ∃ ai', (_generateProjectStructure description framework w).2 = set_ai ai' w.
Proof.
  unfold _generateProjectStructure. destruct (chooseStrategy description).
  - apply request_json_frame.
  - unfold _generateLargerProject, bind, try_catch.
    destruct (_callAI_frame w (structurePrompt description framework) 2048)
      as [ai1 Hcall].
    destruct (_callAI (structurePrompt description framework) 2048 w)
      as [[structureResponse|e] w1]; simpl in Hcall; subst w1;
      [|by exists ai1].
    assert (∀ filePaths,
              ∃ ai',
                (match for_of filePaths (generate_one description framework) []
                         (set_ai ai1 w) with
                 | (Ok generated, w') => ret {| files := generated |} w'
                 | (Throw e, w') => (Throw e, w')
                 end).2 = set_ai ai' w) as Hloop.
    { intros filePaths.
      destruct (content_loop_frame (set_ai ai1 w) description framework
                  filePaths []) as [ai2 Hl].
      destruct (for_of filePaths (generate_one description framework) []
                  (set_ai ai1 w)) as [[generated|e] w2];
        simpl in Hl; subst w2; by exists ai2. }
    destruct (match_array structureResponse) as [group1|]; simpl.
    + unfold JSON_parse.
      match goal with |- context [JSON_parse_paths ?text] =>
        destruct (JSON_parse_paths text) as [filePaths|] end;
        simpl; [apply Hloop|by exists ai1].
    + apply (Hloop []).
Qed.

(** X10. Without a client ([_openai] is [null]) nothing is asked and
    nothing is written: [_callAI] throws [OpenAI client not initialized]
    and leaves the world as it is, and [generateApplication] shows the
    message about the missing key and throws [API key not configured]. *)
Theorem nothing_happens_without_a_client w description projectPath framework
    prompt maxTokens :
  w_openai w = false →
  _callAI prompt maxTokens w
  = (Throw (new_Error "Error calling AI API: OpenAI client not initialized"), w)
  ∧ generateApplication description projectPath framework w
    = (Throw (new_Error "API key not configured"),
       show (ErrorMessage
               "API key not configured. Please set your API key in the extension settings.")
         w).
Proof.
  intros Hnull. split.
  - unfold _callAI, bind, try_catch, getConfiguration, this_openai. simpl.
    by rewrite Hnull.
  - unfold generateApplication, _checkApiKey, bind, this_openai,
      showErrorMessage. simpl. by rewrite Hnull.
Qed.

(** X11. The single request of a small project, with a client: an answer
    whose JSON text parses is the plan; an answer whose JSON text does not
    parse throws [Failed to parse AI response]; an answer that is [null] or
    empty throws the message about the API not being initialized; a
    request that throws is rethrown with its cause. All of them under
    [Error calling AI API:]. *)
Theorem single_request_outcomes w description framework :
  chooseStrategy description = Flat →
  w_openai w = true →
  _generateProjectStructure description framework w
  = match chat_completions_create (w_ai w) (request_model (w_config w))
            (projectPrompt description framework)
            (request_maxTokens (w_config w)) with
    | (Ok (Some responseContent), ai') =>
        if truthy responseContent then
          match JSON_parse_ProjectStructure (extract_json responseContent) with
          | Some plan => (Ok plan, set_ai ai' w)
          | None =>
              (Throw (new_Error
                 ("Error calling AI API: "
                  +:+ "Failed to parse AI response. The response was not valid JSON.")),
               set_ai ai' w)
          end
        else
          (Throw (new_Error
             ("Error calling AI API: "
              +:+ "Failed to generate project structure. API not initialized.")),
           set_ai ai' w)
    | (Ok None, ai') =>
        (Throw (new_Error
           ("Error calling AI API: "
            +:+ "Failed to generate project structure. API not initialized.")),
         set_ai ai' w)
    | (Throw e, ai') =>
        (Throw (new_Error ("Error calling AI API: " +:+ errorMessage e)),
         set_ai ai' w)
    end.
Proof.
  intros Hflat Hclient. unfold _generateProjectStructure. rewrite Hflat.
  unfold request_json, bind, try_catch, getConfiguration, this_openai,
    completions_create, JSON_parse, throw, ret. simpl. rewrite Hclient.
  destruct (chat_completions_create (w_ai w) (request_model (w_config w))
              (projectPrompt description framework)
              (request_maxTokens (w_config w))) as [[[c|]|e] ai']; simpl;
    try done.
  destruct (truthy c); [|done].
  by destruct (JSON_parse_ProjectStructure (extract_json c)).
Qed.

(** X14. [generateApplication] stops at the first file it cannot create and
    rolls nothing back: the files before it stay created (with their log
    entries), the files after it are not attempted, and the error is
    rethrown under [Failed to generate application:]. *)
Theorem generateApplication_stops_at_first_failure w description projectPath
    framework earlier file later w0 w1 created w2 e w3 :
  w_openai w = true →
  _generateProjectStructure description framework w
  = (Ok {| files := earlier ++ file :: later |}, w0) →
  ensureDirectory projectPath w0 = (Ok tt, w1) →
  for_of earlier (create_one projectPath) [] w1 = (Ok created, w2) →
  createFile (path_join projectPath (path file)) (content file) w2
  = (Throw e, w3) →
  generateApplication description projectPath framework w
  = (Throw (new_Error ("Failed to generate application: " +:+ errorMessage e)),
     w3).
Proof.
  intros Hclient Hplan Hdir Hearlier Hfail.
  unfold generateApplication, _checkApiKey, bind, try_catch, this_openai.
  simpl. rewrite Hclient. simpl. rewrite Hplan, Hdir. simpl.
  rewrite for_of_app, Hearlier. simpl. unfold bind, create_one at 1.
  unfold bind. by rewrite Hfail.
Qed.

End PlannerMore.

(** ** Components, reading back and scanning *)

Section ComponentMore.
Context {FS AI : Type}.
Context `{FileSystem FS} `{NodePath} `{Completions AI} `{Builtins}.
Context `{Decoder} `{NodePathMore} `{DirectoryReader FS} `{CodePrompts}.
Implicit Types (w : World FS AI) (description targetPath : string).

Lemma request_code_frame w prompt notInitialized :
  ∃ ai', (request_code prompt notInitialized w).2 = set_ai ai' w.
Proof.
  unfold request_code, bind, try_catch, getConfiguration, this_openai,
    completions_create, throw, ret. simpl.
  destruct (w_openai w).
  - destruct (chat_completions_create (w_ai w) (request_model (w_config w))
                prompt (request_maxTokens (w_config w))) as [[[c|]|e] ai'];
      simpl; try by exists ai'.
    destruct (truthy c); by exists ai'.
  - exists (w_ai w). by destruct w.
Qed.

(** What [generateComponent] comes to once the key check has passed. *)
Lemma generateComponent_run w description targetPath :
  w_openai w = true →
  generateComponent description targetPath w
  = match _generateComponentCode description
            (component_framework (path_extname targetPath) targetPath)
            (component_language (path_extname targetPath)) w with
    | (Ok componentCode, w1) =>
        match createFile targetPath componentCode w1 with
        | (Ok _, w2) =>
            (Ok {| filePath := targetPath; code := componentCode |}, w2)
        | (Throw e, w2) =>
            (Throw (new_Error
               ("Failed to generate component: " +:+ errorMessage e)), w2)
        end
    | (Throw e, w1) =>
        (Throw (new_Error ("Failed to generate component: " +:+ errorMessage e)),
         w1)
    end.
Proof.
  intros Hclient.
  unfold generateComponent, _checkApiKey, bind, try_catch, this_openai.
  simpl. rewrite Hclient. simpl.
  destruct (_generateComponentCode description _ _ w) as [[componentCode|e] w1];
    [|done].
  by destruct (createFile targetPath componentCode w1) as [[[]|e] w2].
Qed.

(** X16. A component that [generateComponent] reports as generated is on
    the storage: on a storage that keeps the laws the target path holds
    the bytes of the very code the result carries, and the log has got the
    creation of that path, so that the next undo takes the file away. *)
Theorem generated_component_is_stored `{!FileSystemLaws FS}
    w description targetPath result w' :
  generateComponent description targetPath w = (Ok result, w') →
  filePath result = targetPath
  ∧ fs_readFile (w_fs w') targetPath = Ok (Buffer_from (code result))
  ∧ w_history w'
    = recordOperation (FileCreateOperation targetPath) (w_history w).
Proof.
  destruct (w_openai w) eqn:Hclient.
  - rewrite generateComponent_run by done.
    destruct (request_code_frame w
                (componentPrompt description
                   (component_framework (path_extname targetPath) targetPath)
                   (component_language (path_extname targetPath)))
                "Failed to generate component code. API not initialized.")
      as [ai' Hframe].
    unfold _generateComponentCode.
    destruct (request_code _ _ w) as [[componentCode|e] w1]; [|done].
    simpl in Hframe. subst w1.
    destruct (createFile targetPath componentCode (set_ai ai' w))
      as [[[]|e] w2] eqn:Hcreate; [|done].
    intros [= <- <-]. simpl.
    pose proof (createFile_history _ _ _ _ _ Hcreate) as Hlog.
    destruct (createFile_inv _ _ _ _ Hcreate) as (w0 & fs1 & _ & Hwrite & ->).
    split_and!; [done| |done].
    simpl. by apply (read_after_write _ _ _ _ Hwrite).
  - unfold generateComponent, _checkApiKey, bind, this_openai. simpl.
    by rewrite Hclient.
Qed.

(** X19. [generateComponent] never writes over a file: when the target
    path exists (on a storage that keeps the laws) the request is still
    made, and then the call throws, with [File already exists] when the
    request had returned; the storage and the log are as before. *)
Theorem generateComponent_keeps_existing_file `{!FileSystemLaws FS}
    w description targetPath :
  w_openai w = true →
  fs_stat (w_fs w) targetPath = Ok tt →
  ∃ e w',
    generateComponent description targetPath w = (Throw e, w')
    ∧ w_fs w' = w_fs w
    ∧ w_history w' = w_history w
    ∧ (∀ componentCode w1,
         _generateComponentCode description
           (component_framework (path_extname targetPath) targetPath)
           (component_language (path_extname targetPath)) w
         = (Ok componentCode, w1) →
         e = new_Error
               ("Failed to generate component: "
                +:+ "Failed to create file: File already exists: " +:+ targetPath)).
Proof.
  intros Hclient Hstat. rewrite generateComponent_run by done.
  destruct (request_code_frame w
              (componentPrompt description
                 (component_framework (path_extname targetPath) targetPath)
                 (component_language (path_extname targetPath)))
              "Failed to generate component code. API not initialized.")
    as [ai' Hframe].
  unfold _generateComponentCode.
  destruct (request_code _ _ w) as [[componentCode|e] w1] eqn:Hreq;
    simpl in Hframe; subst w1.
  - rewrite (createFile_existing (set_ai ai' w)) by done.
    eexists _, _. split_and!; [done..|]. by intros.
  - eexists _, _. split_and!; [done..|]. by intros.
Qed.

(** X17. What [createFile] or [updateFile] has written is what [readFile]
    gives back, on a storage that keeps the laws and for a content that
    survives the encoding to bytes and back; [readFile] changes nothing. *)
Theorem readFile_after_write `{!FileSystemLaws FS} w filePath content w1 :
  createFile filePath content w = (Ok tt, w1)
  ∨ updateFile filePath content w = (Ok tt, w1) →
  Buffer_toString (Buffer_from content) = content →
  readFile filePath w1 = (Ok content, w1).
Proof.
  intros Hwritten Hround.
  assert (fs_readFile (w_fs w1) filePath = Ok (Buffer_from content)) as Hread.
  { destruct Hwritten as [Hrun|Hrun].
    - destruct (createFile_inv _ _ _ _ Hrun) as (w0 & fs1 & _ & Hwrite & ->).
      simpl. by apply (read_after_write _ _ _ _ Hwrite).
    - destruct (updateFile_inv _ _ _ _ Hrun) as (old & fs1 & _ & Hwrite & ->).
      simpl. by apply (read_after_write _ _ _ _ Hwrite). }
  unfold readFile, try_catch, bind, workspace_fs_readFile, ret.
  by rewrite Hread, Hround.
Qed.

Lemma scan_loop_returns (deeper : string → M FS AI (list string)) dirPath
    entries files w :
  (∀ p w', ∃ sub, deeper p w' = (Ok sub, w')) →
  ∃ files', for_of entries (scan_entry deeper dirPath) files w = (Ok files', w).
Proof.
  intros Hdeeper. revert files.
  induction entries as [|[name type] entries IH]; intros files; simpl.
  - by eexists.
  - unfold bind, scan_entry at 1.
    destruct (bool_decide (name ∈ skipped_directories)); [apply IH|].
    destruct (decide (type = FileType_Directory)); [|apply IH].
    unfold bind. destruct (Hdeeper (path_join dirPath name) w) as [sub ->].
    apply IH.
Qed.

Lemma scan_levels_returns levels dirPath w :
  ∃ files, scan_levels levels dirPath w = (Ok files, w).
Proof.
  revert dirPath w. induction levels as [|levels IH]; intros dirPath w; simpl.
  - by eexists.
  - unfold try_catch, bind, workspace_fs_readDirectory.
    destruct (fs_readDirectory (w_fs w) dirPath) as [entries|e]; [|by eexists].
    destruct (scan_loop_returns (scan_levels levels) dirPath entries [] w IH)
      as [files ->].
    by eexists.
Qed.

Lemma scan_loop_skipped (deeper : string → M FS AI (list string)) dirPath
    (entries : list (string * N)) files w :
  (∀ entry, entry ∈ entries → entry.1 ∈ skipped_directories) →
  for_of entries (scan_entry deeper dirPath) files w = (Ok files, w).
Proof.
  revert files. induction entries as [|[name type] entries IH];
    intros files Hskip; simpl; [done|].
  unfold bind, scan_entry at 1.
  rewrite bool_decide_eq_true_2 by (apply (Hskip (name, type)); by left).
  apply IH. intros entry Hin. apply Hskip. by right.
Qed.

(** X18. [_scanDirectory] never throws and changes nothing. It lists
    nothing once the depth is used up, nothing for a directory that cannot
    be read, and nothing for a directory that holds only [node_modules],
    [dist], [build] or [.git]. *)
Theorem scanDirectory_returns w dirPath maxDepth currentDepth :
  ∃ files,
    _scanDirectory dirPath maxDepth currentDepth w = (Ok files, w)
    ∧ (maxDepth ≤ currentDepth → files = [])
    ∧ (∀ e, fs_readDirectory (w_fs w) dirPath = Throw e → files = [])
    ∧ (∀ entries,
         fs_readDirectory (w_fs w) dirPath = Ok entries →
         (∀ entry, entry ∈ entries → entry.1 ∈ skipped_directories) →
         files = []).
Proof.
  unfold _scanDirectory.
  destruct (scan_levels_returns (maxDepth - currentDepth) dirPath w)
    as [files Hrun].
  exists files. split; [done|]. split_and!.
  - intros Hdeep. replace (maxDepth - currentDepth) with 0 in Hrun by lia.
    simpl in Hrun. by injection Hrun as <-.
  - intros e Hread. destruct (maxDepth - currentDepth) as [|levels];
      simpl in Hrun; [by injection Hrun as <-|].
    unfold try_catch, bind, workspace_fs_readDirectory in Hrun.
    rewrite Hread in Hrun. by injection Hrun as <-.
  - intros entries Hread Hskip.
    destruct (maxDepth - currentDepth) as [|levels];
      simpl in Hrun; [by injection Hrun as <-|].
    unfold try_catch, bind, workspace_fs_readDirectory in Hrun.
    rewrite Hread in Hrun.
    rewrite (scan_loop_skipped _ _ _ _ _ Hskip) in Hrun.
    by injection Hrun as <-.
Qed.

End ComponentMore.

(** ** The further statements on concrete inputs *)

Lemma undo_always_returns_witness :
  undo (world_of sample_fs [])
  = (Ok tt, show (Information "Nothing to undo") (world_of sample_fs [])).
Proof.
  destruct (undo_always_returns (world_of sample_fs []))
    as (notice & fs' & Hrun & Hempty).
  destruct (Hempty eq_refl) as [-> ->]. exact Hrun.
Defined.

Lemma log_stays_within_capacity_witness :
  within_capacity
    (w_history (createFile "proj/new.txt" "n" (world_of sample_fs [])).2).
Proof.
  apply (log_stays_within_capacity (world_of sample_fs []) "proj/new.txt" "n").
  unfold within_capacity. simpl. lia.
Defined.

Lemma mutation_records_once_witness :
  w_history (createFile "proj/new.txt" "n" (world_of sample_fs [])).2
  = recordOperation (FileCreateOperation "proj/new.txt") new_HistoryManager.
Proof.
  destruct (mutation_records_once (world_of sample_fs []) "proj/new.txt" "n")
    as (Hcreate & _).
  apply (Hcreate (Ok tt)). vm_compute. reflexivity.
Defined.

Lemma mutation_errors_are_labelled_witness :
  ∃ cause,
    new_Error "Failed to create file: File already exists: proj/a.txt"
    = new_Error ("Failed to create file: " +:+ cause).
Proof.
  destruct (mutation_errors_are_labelled (world_of sample_fs []) "proj/a.txt"
              "bye"
              (new_Error "Failed to create file: File already exists: proj/a.txt")
              (world_of sample_fs [])) as (Hcreate & _).
  apply Hcreate. vm_compute. reflexivity.
Defined.

(** [proj] is a directory: it is there, and it cannot be read as a file. *)
Lemma no_mutation_without_snapshot_witness :
  updateFile "proj" "x" (world_of sample_fs [])
  = (Throw (new_Error "Failed to update file: proj"), world_of sample_fs []).
Proof.
  destruct (no_mutation_without_snapshot (world_of sample_fs []) "proj" "x"
              (FileIsADirectory "proj")) as (Hupdate & _);
    [vm_compute; reflexivity..|].
  exact Hupdate.
Defined.

Lemma createFile_twice_witness :
  let w1 := (createFile "proj/new.txt" "one" (world_of sample_fs [])).2 in
  createFile "proj/new.txt" "two" w1
  = (Throw (new_Error "Failed to create file: File already exists: proj/new.txt"),
     w1)
  ∧ fs_readFile (w_fs w1) "proj/new.txt" = Ok (list_byte_of_string "one").
Proof.
  intros w1.
  destruct (createFile_twice (world_of sample_fs []) "proj/new.txt" "one" "two"
              w1) as [Hsecond Hread]; [vm_compute; reflexivity|].
  split; [exact Hsecond|exact Hread].
Defined.

Lemma two_updates_two_undos_witness :
  let w := world_of sample_fs [] in
  let w2 := (updateFile "proj/a.txt" "two" (updateFile "proj/a.txt" "one" w).2).2 in
  fs_readFile (w_fs (undo w2).2) "proj/a.txt" = Ok (list_byte_of_string "one")
  ∧ fs_readFile (w_fs (undo (undo w2).2).2) "proj/a.txt"
    = Ok (list_byte_of_string "hello").
Proof.
  intros w w2.
  destruct (two_updates_two_undos w "proj/a.txt" "one" "two"
              (list_byte_of_string "hello")
              (updateFile "proj/a.txt" "one" w).2 w2 (undo w2).2
              (undo (undo w2).2).2) as [Hfirst Hsecond];
    try (vm_compute; reflexivity); [vm_compute; lia|].
  split; [exact Hfirst|exact Hsecond].
Defined.

Lemma mutation_then_undo_log_witness :
  let w := world_of sample_fs [] in
  _operations (w_history (undo (createFile "proj/new.txt" "n" w).2).2) = [].
Proof.
  intros w.
  destruct (mutation_then_undo_log w "proj/new.txt" "n"
              (createFile "proj/new.txt" "n" w).2
              (undo (createFile "proj/new.txt" "n" w).2).2) as (Hroom & _).
  - left. vm_compute. reflexivity.
  - vm_compute. reflexivity.
  - apply Hroom. vm_compute. lia.
Defined.

Lemma ensureDirectory_idempotent_witness :
  let w1 := (ensureDirectory "proj/sub" (world_of sample_fs [])).2 in
  ensureDirectory "proj/sub" w1 = (Ok tt, w1).
Proof.
  intros w1.
  apply (ensureDirectory_idempotent (world_of sample_fs []) "proj/sub" w1).
  vm_compute. reflexivity.
Defined.

Lemma nothing_happens_without_a_client_witness :
  _callAI "Say something." 2048 world_without_client
  = (Throw (new_Error "Error calling AI API: OpenAI client not initialized"),
     world_without_client).
Proof.
  destruct (nothing_happens_without_a_client (H3:=no_plan) (ProjectAnalysis:=unit)
              world_without_client "a todo list" "proj" "react"
              "Say something." 2048) as (Hcall & _).
  - reflexivity.
  - exact Hcall.
Defined.

(** An answer that is not the JSON of a plan. *)
Lemma single_request_outcomes_witness :
  _generateProjectStructure (H3:=no_plan) (ProjectAnalysis:=unit)
    "a todo list" "react" (world_of sample_fs [Ok (Some "I will not.")])
  = (Throw (new_Error
       "Error calling AI API: Failed to parse AI response. The response was not valid JSON."),
     world_of sample_fs []).
Proof.
  rewrite (single_request_outcomes (H3:=no_plan) (ProjectAnalysis:=unit)
             (world_of sample_fs [Ok (Some "I will not.")])
             "a todo list" "react");
    vm_compute; reflexivity.
Defined.

Lemma fenced_text_is_extracted_witness :
  extract_json
    ("The plan:" +:+ LF +:+ FENCE +:+ "json" +:+ LF +:+ " {} " +:+ LF +:+ FENCE
     +:+ " Enjoy.")
  = "{}".
Proof.
  destruct (fenced_text_is_extracted ("The plan:" +:+ LF) "json" " {} " " Enjoy.")
    as (Hjson & _);
    [vm_compute; reflexivity|vm_compute; reflexivity|discriminate
    |vm_compute; reflexivity|].
  exact Hjson.
Defined.

(** The group stops at the first closing bracket, inside the nested
    array. *)
Lemma match_array_is_first_bracket_pair_witness :
  match_array "Files: [a, [b]] and [c]" = Some "a, [b".
Proof.
  apply match_array_is_first_bracket_pair.
  exists "Files: ", "] and [c]". split_and!; vm_compute; reflexivity.
Defined.

(** [proj/a.txt] is in the way: [proj/new.txt] has been created and stays,
    [proj/c.txt] is never tried. *)
Lemma generateApplication_stops_at_first_failure_witness :
  let run := generateApplication (H3:=no_plan) (ProjectAnalysis:=unit)
               (description_of 5000) "proj" "react"
               (world_of sample_fs colliding_script) in
  run.1
  = Throw (new_Error
      ("Failed to generate application: "
       +:+ "Failed to create file: File already exists: proj/a.txt"))
  ∧ fs_readFile (w_fs run.2) "proj/new.txt" = Ok (list_byte_of_string "one")
  ∧ (∃ e, fs_stat (w_fs run.2) "proj/c.txt" = Throw e).
Proof.
  intros run.
  set (w := world_of sample_fs colliding_script).
  set (plan := _generateProjectStructure (H3:=no_plan) (ProjectAnalysis:=unit)
                 (description_of 5000) "react" w).
  set (w2 := (for_of [{| path := "new.txt"; content := "one" |}]
                (create_one "proj") [] plan.2).2).
  assert (run = (Throw (new_Error
                   ("Failed to generate application: "
                    +:+ errorMessage
                          (new_Error "Failed to create file: File already exists: proj/a.txt"))),
                 w2)) as ->.
  { apply (generateApplication_stops_at_first_failure (H3:=no_plan)
             (ProjectAnalysis:=unit) w (description_of 5000) "proj" "react"
             [{| path := "new.txt"; content := "one" |}]
             {| path := "a.txt"; content := "two" |}
             [{| path := "c.txt"; content := "three" |}]
             plan.2 plan.2 ["proj/new.txt"] w2);
      vm_compute; reflexivity. }
  split_and!; [vm_compute; reflexivity..|].
  eexists. vm_compute. reflexivity.
Defined.

Lemma generated_component_is_stored_witness :
  let run := generateComponent "a button" "proj/Button.tsx"
               (world_of sample_fs component_script) in
  fs_readFile (w_fs run.2) "proj/Button.tsx"
  = Ok (list_byte_of_string "export const B = 1;").
Proof.
  intros run.
  destruct (generated_component_is_stored (world_of sample_fs component_script)
              "a button" "proj/Button.tsx"
              {| filePath := "proj/Button.tsx"; code := "export const B = 1;" |}
              run.2) as (_ & Hread & _).
  - vm_compute. reflexivity.
  - exact Hread.
Defined.

Lemma generateComponent_keeps_existing_file_witness :
  ∃ e w',
    generateComponent "a button" "proj/a.txt"
      (world_of sample_fs component_script) = (Throw e, w')
    ∧ w_fs w' = sample_fs ∧ w_history w' = new_HistoryManager.
Proof.
  destruct (generateComponent_keeps_existing_file
              (world_of sample_fs component_script) "a button" "proj/a.txt")
    as (e & w' & Hrun & Hfs & Hlog & _); [vm_compute; reflexivity..|].
  by exists e, w'.
Defined.

Lemma readFile_after_write_witness :
  readFile "proj/new.txt"
    (createFile "proj/new.txt" "fresh" (world_of sample_fs [])).2
  = (Ok "fresh", (createFile "proj/new.txt" "fresh" (world_of sample_fs [])).2).
Proof.
  apply (readFile_after_write (world_of sample_fs []) "proj/new.txt" "fresh").
  - left. vm_compute. reflexivity.
  - vm_compute. reflexivity.
Defined.

Lemma scanDirectory_returns_witness :
  _scanDirectory "proj" 3 3 (world_of sample_fs [])
  = (Ok [], world_of sample_fs []).
Proof.
  destruct (scanDirectory_returns (world_of sample_fs []) "proj" 3 3)
    as (files & Hrun & Hdeep & _).
  rewrite (Hdeep ltac:(lia)) in Hrun. exact Hrun.
Defined.
